(** * GraphQL facade of the heroes scope: resolver orchestration and
      cache-TTL aggregation

    Shallow embedding of [app/graphql/context.py] and
    [app/graphql/schema.py], with the properties of the design document
    proved about the embedded functions. *)

From Stdlib Require Import ZArith Ascii String List Bool Lia.
From stdpp Require Import base option list gmap strings pretty.

Local Open Scope string_scope.
Local Open Scope Z_scope.
Local Open Scope list_scope.

(** ** Python builtins used by the sources *)

Module Py.

(** A header value is a [str] obtained by decoding the header bytes as
  Latin-1, so every character is one 8-bit [ascii]. *)

(** The Latin-1 characters that [int] strips on both sides of a literal:
  tab, line feed, vertical tab, form feed, carriage return, space, and
  the two non-ASCII spaces NEL (0x85) and NBSP (0xA0).  The separators
  0x1C..0x1F are not stripped by [int]. *)
Definition is_space (c : ascii) : bool :=
let n := Z.of_N (N_of_ascii c) in
((9 <=? n) && (n <=? 13)) || (n =? 32) || (n =? 133) || (n =? 160).

Definition digit_value (c : ascii) : option Z :=
let n := Z.of_N (N_of_ascii c) in
if (48 <=? n) && (n <=? 57) then Some (n - 48) else None.

Definition is_digit (c : ascii) : bool :=
match digit_value c with Some _ => true | None => false end.

Definition is_underscore (c : ascii) : bool :=
Z.of_N (N_of_ascii c) =? 95.

Fixpoint lstrip (cs : list ascii) : list ascii :=
match cs with
| c :: cs' => if is_space c then lstrip cs' else cs
| [] => []
end.

Definition strip (cs : list ascii) : list ascii :=
rev (lstrip (rev (lstrip cs))).

(** Digits of a base-10 literal: one or more digits, single underscores
  allowed between two digits only.  [after_digit] says whether the
  previous character was a digit. *)
Fixpoint digits (cs : list ascii) (acc : Z) (after_digit : bool) : option Z :=
match cs with
| [] => if after_digit then Some acc else None
| c :: cs' =>
    if is_underscore c then
      if after_digit then digits cs' acc false else None
    else
      match digit_value c with
      | Some d => digits cs' (10 * acc + d) true
      | None => None
      end
end.

(** CPython's default limit on the number of digit characters of a
  decimal literal ([sys.get_int_max_str_digits()]). *)
Definition int_max_str_digits : nat := 4300.

Definition unsigned (cs : list ascii) : option Z :=
if (int_max_str_digits <? length (filter (fun c => is_digit c = true) cs))%nat
then None
else digits cs 0 false.

(** [int(s)] for a [str] argument and the default base 10; [None] stands
  for the [ValueError] that [int] raises on anything else. *)
Definition int (s : string) : option Z :=
match strip (list_ascii_of_string s) with
| "+"%char :: cs => unsigned cs
| "-"%char :: cs => Z.opp <$> unsigned cs
| cs => unsigned cs
end.

(** [str(n)] for an [int]: the decimal numeral, with a minus sign for
  negative numbers. *)
Definition str (n : Z) : string := pretty n.

End Py.

(** ** Exceptions, results and the state-and-error monad *)

(** The exceptions that cross this layer: [ValueError] (raised by an enum
    class called on a value it has no member for; the design document
    calls it UnknownEnumValue), the validation error of the entity
    models, and whatever else a downstream controller raises. *)
Inductive exn : Type :=
| ValueError
| ValidationError
| OtherError (name : string).

Inductive result (A : Type) : Type :=
| Ok (a : A)
| Raise (e : exn).

Arguments Ok {A} a.
Arguments Raise {A} e.

(** A computation over a mutable state [S] that returns or raises; the
    state written before an exception is kept, as in Python. *)
Definition M (S A : Type) : Type := S -> result A * S.

Definition ret {S A} (a : A) : M S A := fun s => (Ok a, s).

Definition bind {S A B} (m : M S A) (k : A -> M S B) : M S B :=
  fun s =>
    match m s with
    | (Ok a, s') => k a s'
    | (Raise e, s') => (Raise e, s')
    end.

Definition lift {S A} (r : result A) : M S A := fun s => (r, s).

Notation "x <- m ;; k" := (bind m (fun x => k))
  (at level 90, m at next level, right associativity).

(** Exceptions alone, for the pure helpers. *)
Definition rbind {A B} (r : result A) (k : A -> result B) : result B :=
  match r with
  | Ok a => k a
  | Raise e => Raise e
  end.

(** A list comprehension whose element expression may raise: the first
    exception ends it. *)
Fixpoint rmap {A B} (f : A -> result B) (l : list A) : result (list B) :=
  match l with
  | [] => Ok []
  | x :: l' =>
      rbind (f x) (fun y => rbind (rmap f l') (fun ys => Ok (y :: ys)))
  end.

(** ** Python values: strings and enum members *)

(** A member of an enum class carries its class, whether the class mixes
    in [str] (as [StrEnum] does), its name and its [.value]. *)
Inductive value : Type :=
| VStr (s : string)
| VEnum (m : member)
with member : Type :=
| Member (cls : string) (str_mixin : bool) (name : string) (val : value).

Definition m_cls (m : member) : string := let 'Member c _ _ _ := m in c.
Definition m_name (m : member) : string := let 'Member _ _ n _ := m in n.
Definition m_value (m : member) : value := let 'Member _ _ _ v := m in v.

Fixpoint value_eq_dec (a b : value) : {a = b} + {a <> b}
with member_eq_dec (a b : member) : {a = b} + {a <> b}.
Proof.
  - decide equality; apply string_dec.
  - decide equality; first [apply string_dec | apply bool_dec].
Defined.

#[export] Instance value_eq : EqDecision value := value_eq_dec.
#[export] Instance member_eq : EqDecision member := member_eq_dec.

(** The text of a value that is a [str]: a plain string, or a member of a
    class that mixes in [str] (whose values are plain strings). *)
Definition str_content (v : value) : option string :=
  match v with
  | VStr s => Some s
  | VEnum (Member _ true _ (VStr s)) => Some s
  | VEnum _ => None
  end.

(** [a == b] (and agreement of the hashes), as dictionaries and the
    value lookup of enum classes use it: strings compare by text, other
    objects by identity. *)
Definition py_eq (a b : value) : bool :=
  match str_content a, str_content b with
  | Some s, Some t => bool_decide (s = t)
  | None, None => bool_decide (a = b)
  | _, _ => false
  end.

(** An enum class: its name identifies it, [members] are its members in
    definition order. *)
Record EnumClass : Type := {
  cls_name : string;
  members : list member
}.

(** [isinstance(v, E)], returning the member that [v] then is. *)
Definition instance_of (v : value) (E : EnumClass) : option member :=
  match v with
  | VEnum m => if bool_decide (m_cls m = cls_name E) then Some m else None
  | VStr _ => None
  end.

Definition isinstance (v : value) (E : EnumClass) : bool :=
  match instance_of v E with Some _ => true | None => false end.

(** [E(v)]: a member of [E] is returned as it is, any other value is
    looked up among the members' values; [ValueError] if there is none. *)
Definition enum_call (E : EnumClass) (v : value) : result member :=
  let by_value :=
    match find (fun m => py_eq (m_value m) v) (members E) with
    | Some m => Ok m
    | None => Raise ValueError
    end in
  match instance_of v E with
  | Some m => Ok m
  | None => by_value
  end.

(** [strawberry.enum(cls, name=...)] records the GraphQL name on [cls]
    and returns [cls] itself. *)
Definition strawberry_enum (cls : EnumClass) (name : string) : EnumClass := cls.

(** An enum class as the domain declares it: every member belongs to the
    class, has a plain string as its value, and no two members share a
    value. *)
Definition is_plain_str (v : value) : bool :=
  match v with VStr _ => true | VEnum _ => false end.

Definition enum_wf (E : EnumClass) : bool :=
  forallb (fun m => bool_decide (m_cls m = cls_name E) && is_plain_str (m_value m))
          (members E)
  && bool_decide (NoDup (map m_value (members E))).

(** ** Dictionaries keyed by Python values *)

(** Python finds a key by [==], so the entries are searched with
    [py_eq]; they are kept in insertion order, as [dict] keeps them. *)
Definition dict (V : Type) : Type := list (value * V).

Fixpoint dict_get {V} (d : dict V) (k : value) : option V :=
  match d with
  | [] => None
  | (k', v) :: d' => if py_eq k' k then Some v else dict_get d' k
  end.

(** [d[k] = v]: an equal key keeps its place and gets the new value. *)
Fixpoint dict_set {V} (d : dict V) (k : value) (v : V) : dict V :=
  match d with
  | [] => [(k, v)]
  | (k', v') :: d' =>
      if py_eq k' k then (k', v) :: d' else (k', v') :: dict_set d' k v
  end.

(** ** [app/graphql/context.py] *)

Section Context.

(** The inbound request handle is opaque to this layer. *)
Context {Request : Type}.

(** [settings.cache_ttl_header]: the configured header name. *)
Variable cache_ttl_header : string.

(** The outbound response is represented by its header table; the
    context holds the only reference through which this layer writes
    it.  The framework compares header names without regard to case:
    a table is keyed by the normalised name, and [cache_ttl_header]
    stands for the configured name in that form. *)
Record GraphQLContext := {
  request : Request;
  response : gmap string string;
  cache_ttl : option Z
}.

(** [GraphQLContext.merge_cache_ttl] *)
Definition merge_cache_ttl (self : GraphQLContext)
    (ttl_header : option string) : GraphQLContext :=
  match ttl_header with
  | None => self
  | Some h =>
      match Py.int h with
      | None => self
      | Some ttl_value =>
          if match cache_ttl self with
             | None => true
             | Some c => ttl_value <? c
             end
          then {| request := request self;
                  response := <[cache_ttl_header := Py.str ttl_value]> (response self);
                  cache_ttl := Some ttl_value |}
          else self
      end
  end.

(** [build_context] *)
Definition build_context (req : Request) (resp : gmap string string)
    : GraphQLContext :=
  {| request := req; response := resp; cache_ttl := None |}.

(** A sequence of merge calls on one context, in call order. *)
Definition merge_all (self : GraphQLContext) (hs : list (option string))
    : GraphQLContext :=
  foldl merge_cache_ttl self hs.

(** The values of a call sequence that [int] accepts, in call order. *)
Definition parsed_values (hs : list (option string)) : list Z :=
  omap (fun h => h ≫= Py.int) hs.

(** Smallest element of a list of integers, if any. *)
Fixpoint list_min (l : list Z) : option Z :=
  match l with
  | [] => None
  | x :: l' =>
      match list_min l' with
      | None => Some x
      | Some m => Some (Z.min x m)
      end
  end.

End Context.

Arguments GraphQLContext : clear implicits.

(** ** Entities of [app/heroes/models] as this layer uses them *)

(** [HeroShort], after validation: [key] is a member of [HeroKey],
    [role] a member of [Role]; [portrait] is the text of the URL, which
    is what [str(hero_short.portrait)] yields. *)
Module HeroShort.
Record t : Type := {
  key : member;
  name : string;
  portrait : string;
  role : member
}.
End HeroShort.

(** [HeroNode]: every node owns the dictionary that the default factory
    creates for it. *)
Module HeroNode.
Record t (Hero : Type) : Type := {
  key : member;
  name : string;
  portrait : string;
  role : member;
  _details_cache : dict Hero
}.
Arguments key {Hero} _.
Arguments name {Hero} _.
Arguments portrait {Hero} _.
Arguments role {Hero} _.
Arguments _details_cache {Hero} _.
End HeroNode.

(** ** The key filter of [app/graphql/schema.py] *)

(** [{hero.key: hero for hero in hero_shorts}] *)
Definition by_key_of (hero_shorts : list HeroShort.t) : dict HeroShort.t :=
  foldl (fun d hero => dict_set d (VEnum (HeroShort.key hero)) hero) [] hero_shorts.

(** [_filter_by_keys].  A [HeroShort] is a model object and therefore
    true, so [if hero := by_key.get(key)] only tests whether the key is
    in the dictionary. *)
Definition _filter_by_keys (hero_shorts : list HeroShort.t)
    (keys : list member) : list HeroShort.t :=
  match keys with
  | [] => hero_shorts
  | _ :: _ =>
      let by_key := by_key_of hero_shorts in
      foldl (fun filtered key =>
               match dict_get by_key (VEnum key) with
               | Some hero => filtered ++ [hero]
               | None => filtered
               end) [] keys
  end.

(** ** Downstream controllers *)

Inductive controller_kind : Type :=
| ListHeroes
| GetHero.

#[export] Instance controller_kind_eq : EqDecision controller_kind.
Proof. solve_decision. Defined.

(** A controller class, constructed on a request and a scratch response
    and asked to [process_request] with keyword arguments [K]: it
    returns a payload or raises, leaves headers on the scratch response
    (the table returned here), and may change the backend state
    [Downstream]. *)
Record Controller (Request Downstream K A : Type) : Type := {
  kind : controller_kind;
  process_request :
    Request -> K -> Downstream -> (gmap string string * result A) * Downstream
}.

Arguments kind {Request Downstream K A} _.
Arguments process_request {Request Downstream K A} _ _ _ _.

(** What resolvers act on: the context of the operation, the backend,
    and the log of the controller calls awaited so far. *)
Record World (Request Downstream : Type) : Type := {
  context : GraphQLContext Request;
  downstream : Downstream;
  awaited : list controller_kind
}.

Arguments context {Request Downstream} _.
Arguments downstream {Request Downstream} _.
Arguments awaited {Request Downstream} _.

(** ** [app/graphql/schema.py] *)

Section Schema.

Context {Request Downstream Raw Hero : Type}.

(** [settings.cache_ttl_header] *)
Variable cache_ttl_header : string.

(** The domain enums [app.roles.enums.Role], [app.enums.Locale] and
    [app.heroes.enums.HeroKey]. *)
Variables Role Locale HeroKey : EnumClass.

(** [Hero.model_validate] and [HeroShort.model_validate] *)
Variable Hero_model_validate : Raw -> result Hero.
Variable HeroShort_model_validate : Raw -> result HeroShort.t.

(** [process_request] of [ListHeroesController] and of
    [GetHeroController] *)
Variable list_heroes_process_request :
  Request -> option member * member -> Downstream ->
  (gmap string string * result (list Raw)) * Downstream.
Variable get_hero_process_request :
  Request -> member * member -> Downstream ->
  (gmap string string * result Raw) * Downstream.

Definition ListHeroesController
    : Controller Request Downstream (option member * member) (list Raw) :=
  {| kind := ListHeroes; process_request := list_heroes_process_request |}.

Definition GetHeroController
    : Controller Request Downstream (member * member) Raw :=
  {| kind := GetHero; process_request := get_hero_process_request |}.

(** [app/graphql/types.py] *)
Definition LocaleEnum : EnumClass := strawberry_enum Locale "Locale".
Definition RoleEnum : EnumClass := strawberry_enum Role "Role".
Definition HeroKeyEnum : EnumClass := strawberry_enum HeroKey "HeroKey".

Definition _convert_role (role : option member) : result (option member) :=
  match role with
  | None => Ok None
  | Some role =>
      match instance_of (m_value role) Role with
      | Some v => Ok (Some v)
      | None => rbind (enum_call Role (m_value role)) (fun r => Ok (Some r))
      end
  end.

Definition _convert_locale (locale : member) : result member :=
  match instance_of (m_value locale) Locale with
  | Some v => Ok v
  | None => enum_call Locale (m_value locale)
  end.

Definition _enum_to_hero_key (enum_member : member) : result member :=
  match instance_of (m_value enum_member) HeroKey with
  | Some v => Ok v
  | None => enum_call HeroKey (m_value enum_member)
  end.

Definition _convert_keys (keys : list member) : result (list member) :=
  rmap _enum_to_hero_key keys.

Definition _hero_key_to_enum (hero_key : member) : result member :=
  match enum_call HeroKeyEnum (VEnum hero_key) with
  | Ok m => Ok m
  | Raise ValueError => enum_call HeroKeyEnum (m_value hero_key)
  | Raise e => Raise e
  end.

Definition _role_to_enum (role : member) : result member :=
  match enum_call RoleEnum (VEnum role) with
  | Ok m => Ok m
  | Raise ValueError => enum_call RoleEnum (m_value role)
  | Raise e => Raise e
  end.

(** [_run_controller]: [info.context] is the context of the world. *)
Definition _run_controller {K A}
    (controller_cls : Controller Request Downstream K A) (kwargs : K)
    : M (World Request Downstream) A :=
  fun w =>
    let '(temp_response, outcome, d) :=
      process_request controller_cls (request (context w)) kwargs (downstream w) in
    let called := awaited w ++ [kind controller_cls] in
    match outcome with
    | Raise e =>
        (Raise e, {| context := context w; downstream := d; awaited := called |})
    | Ok payload =>
        (Ok payload,
         {| context := merge_cache_ttl cache_ttl_header (context w)
                         (temp_response !! cache_ttl_header);
            downstream := d;
            awaited := called |})
    end.

Definition _parse_models (data : list Raw) : result (list HeroShort.t) :=
  rmap HeroShort_model_validate data.

(** Runs a computation on the world next to a node. *)
Definition with_node {A} (m : M (World Request Downstream) A)
    : M (HeroNode.t Hero * World Request Downstream) A :=
  fun '(self, w) => let '(r, w') := m w in (r, (self, w')).

(** [self._details_cache[cache_key] = hero] *)
Definition store_details (cache_key : value) (hero : Hero)
    : M (HeroNode.t Hero * World Request Downstream) unit :=
  fun '(self, w) =>
    (Ok tt,
     ({| HeroNode.key := HeroNode.key self;
         HeroNode.name := HeroNode.name self;
         HeroNode.portrait := HeroNode.portrait self;
         HeroNode.role := HeroNode.role self;
         HeroNode._details_cache :=
           dict_set (HeroNode._details_cache self) cache_key hero |}, w)).

(** [HeroNode._load_details], on the node [self] and the world.  A
    [Hero] is a model object and therefore true, so the test of
    [cached] only asks whether the cache has the key. *)
Definition _load_details (locale : member)
    : M (HeroNode.t Hero * World Request Downstream) Hero :=
  fun '(self, w) =>
    let cache_key := m_value locale in
    match dict_get (HeroNode._details_cache self) cache_key with
    | Some cached => (Ok cached, (self, w))
    | None =>
        (hero_key <- lift (_enum_to_hero_key (HeroNode.key self)) ;;
         locale' <- lift (_convert_locale locale) ;;
         payload <- with_node (_run_controller GetHeroController (hero_key, locale')) ;;
         hero <- lift (Hero_model_validate payload) ;;
         _ <- store_details cache_key hero ;;
         ret hero) (self, w)
    end.

Definition _make_hero_node (hero_short : HeroShort.t)
    : result (HeroNode.t Hero) :=
  rbind (_hero_key_to_enum (HeroShort.key hero_short)) (fun key =>
  rbind (_role_to_enum (HeroShort.role hero_short)) (fun role =>
  Ok {| HeroNode.key := key;
        HeroNode.name := HeroShort.name hero_short;
        HeroNode.portrait := HeroShort.portrait hero_short;
        HeroNode.role := role;
        HeroNode._details_cache := [] |})).

(** [Query.heroes]; [keys = None] is the absent argument. *)
Definition heroes (role : option member) (locale : member)
    (keys : option (list member))
    : M (World Request Downstream) (list (HeroNode.t Hero)) :=
  role' <- lift (_convert_role role) ;;
  locale' <- lift (_convert_locale locale) ;;
  payload <- _run_controller ListHeroesController (role', locale') ;;
  hero_shorts <- lift (_parse_models payload) ;;
  hero_keys <- lift (match keys with
                     | Some ((_ :: _) as ks) => _convert_keys ks
                     | _ => Ok []
                     end) ;;
  let filtered := _filter_by_keys hero_shorts hero_keys in
  lift (rmap _make_hero_node filtered).

End Schema.

(** ** Notions used to state the properties *)

(** Some member of [E] has a value equal to [v]: [v] is a value code of
    the enum. *)
Definition has_value (E : EnumClass) (v : value) : bool :=
  existsb (fun m => py_eq (m_value m) v) (members E).

(** [E(v)] has something to return: [v] is a member of [E] or the value
    code of one. *)
Definition known (E : EnumClass) (v : value) : bool :=
  isinstance v E || has_value E v.

(** What a conversion [f] into the domain enum [D] does with a wire
    member [x], by cases on [x.value]; [inj] wraps the converted
    member in the result ([Some] for the optional role). *)
Definition to_domain_cases {A} (D : EnumClass) (f : member -> result A)
    (inj : member -> A) : Prop :=
  forall x : member,
    (forall d, m_value x = VEnum d -> isinstance (VEnum d) D = true ->
       f x = Ok (inj d)) /\
    (has_value D (m_value x) = true -> exists d, f x = Ok (inj d)) /\
    (known D (m_value x) = false -> f x = Raise ValueError).

(** What a conversion [f] into the wire enum [W] does with a domain
    member [y]: [y] itself is tried first, then [y.value]. *)
Definition to_wire_cases (W : EnumClass) (f : member -> result member) : Prop :=
  forall y : member,
    (isinstance (VEnum y) W = true -> f y = Ok y) /\
    (has_value W (m_value y) = true -> exists w, f y = Ok w) /\
    (known W (VEnum y) = false -> known W (m_value y) = false ->
       f y = Raise ValueError).

(** A Short Entity wrapped as an Entity Node, with an empty cache. *)
Definition wrap_node {Hero} (hero_short : HeroShort.t) : HeroNode.t Hero :=
  {| HeroNode.key := HeroShort.key hero_short;
     HeroNode.name := HeroShort.name hero_short;
     HeroNode.portrait := HeroShort.portrait hero_short;
     HeroNode.role := HeroShort.role hero_short;
     HeroNode._details_cache := [] |}.

(** The key of a Short Entity equals [k]. *)
Definition has_key (k : member) (hero : HeroShort.t) : bool :=
  py_eq (VEnum (HeroShort.key hero)) (VEnum k).

(** ** Sample data: a small instance of the parameters *)

Module Sample.

Definition Role : EnumClass :=
  {| cls_name := "Role";
     members := [ Member "Role" true "DAMAGE" (VStr "damage");
                  Member "Role" true "SUPPORT" (VStr "support");
                  Member "Role" true "TANK" (VStr "tank") ] |}.

Definition Locale : EnumClass :=
  {| cls_name := "Locale";
     members := [ Member "Locale" true "GERMAN" (VStr "de-de");
                  Member "Locale" true "ENGLISH_US" (VStr "en-us");
                  Member "Locale" true "FRENCH" (VStr "fr-fr") ] |}.

Definition HeroKey : EnumClass :=
  {| cls_name := "HeroKey";
     members := [ Member "HeroKey" true "ANA" (VStr "ana");
                  Member "HeroKey" true "LUCIO" (VStr "lucio");
                  Member "HeroKey" true "SOJOURN" (VStr "sojourn") ] |}.

Definition DAMAGE : member := Member "Role" true "DAMAGE" (VStr "damage").
Definition SUPPORT : member := Member "Role" true "SUPPORT" (VStr "support").
Definition ENGLISH_US : member := Member "Locale" true "ENGLISH_US" (VStr "en-us").
Definition ANA : member := Member "HeroKey" true "ANA" (VStr "ana").
Definition LUCIO : member := Member "HeroKey" true "LUCIO" (VStr "lucio").
Definition SOJOURN : member := Member "HeroKey" true "SOJOURN" (VStr "sojourn").

(** A member of no declared class, with a value no class declares. *)
Definition STRANGER : member := Member "Other" false "X" (VStr "unknown").

(** A wire member that stores the domain member as its value. *)
Definition WRAPPED_ANA : member := Member "HeroKeyWire" false "ANA" (VEnum ANA).

Definition ana : HeroShort.t :=
  {| HeroShort.key := ANA; HeroShort.name := "Ana";
     HeroShort.portrait := "https://example.com/ana.png";
     HeroShort.role := SUPPORT |}.

Definition lucio : HeroShort.t :=
  {| HeroShort.key := LUCIO; HeroShort.name := "Lucio";
     HeroShort.portrait := "https://example.com/lucio.png";
     HeroShort.role := SUPPORT |}.

Definition sojourn : HeroShort.t :=
  {| HeroShort.key := SOJOURN; HeroShort.name := "Sojourn";
     HeroShort.portrait := "https://example.com/sojourn.png";
     HeroShort.role := DAMAGE |}.

(** A second record under the key of [ana]. *)
Definition ana_again : HeroShort.t :=
  {| HeroShort.key := ANA; HeroShort.name := "Ana Amari";
     HeroShort.portrait := "https://example.com/ana-2.png";
     HeroShort.role := SUPPORT |}.

Definition cache_ttl_header : string := "x-cache-ttl".

(** Raw payloads are names of sample records; heroes are their
    validated names. *)
Definition HeroShort_model_validate (raw : string) : result HeroShort.t :=
  if bool_decide (raw = "ana") then Ok ana
  else if bool_decide (raw = "lucio") then Ok lucio
  else if bool_decide (raw = "sojourn") then Ok sojourn
  else Raise ValidationError.

Definition Hero_model_validate (raw : string) : result string :=
  if bool_decide (raw = "") then Raise ValidationError else Ok raw.

(** The backend state counts the calls it has served. *)
Definition list_heroes_process_request (_ : unit)
    (kw : option member * member) (n : nat)
    : (gmap string string * result (list string)) * nat :=
  ({[ cache_ttl_header := "86400" ]}, Ok ["ana"; "sojourn"], S n).

Definition get_hero_process_request (_ : unit) (kw : member * member) (n : nat)
    : (gmap string string * result string) * nat :=
  ({[ cache_ttl_header := "3600" ]}, Ok (m_name (fst kw)), S n).

(** A detail controller that writes a TTL and then raises. *)
Definition failing_process_request (_ : unit) (kw : member * member) (n : nat)
    : (gmap string string * result string) * nat :=
  ({[ cache_ttl_header := "5" ]}, Raise (OtherError "ParserBlizzardError"), S n).

Definition FailingController
    : Controller unit nat (member * member) string :=
  {| kind := GetHero; process_request := failing_process_request |}.

Definition fresh_context : GraphQLContext unit :=
  build_context tt ∅.

Definition world0 : World unit nat :=
  {| context := fresh_context; downstream := O; awaited := [] |}.

Definition ana_node : HeroNode.t string :=
  {| HeroNode.key := ANA; HeroNode.name := "Ana";
     HeroNode.portrait := "https://example.com/ana.png";
     HeroNode.role := SUPPORT; HeroNode._details_cache := [] |}.

End Sample.

(** ** Further notions used to state properties *)

(** The response carries, under the configured name, the stored TTL as
    [str] prints it, and no such header while nothing is stored. *)
Definition header_in_step {Request : Type} (cache_ttl_header : string)
    (ctx : GraphQLContext Request) : Prop :=
  response ctx !! cache_ttl_header = Py.str <$> cache_ttl ctx.

(** [HeroNode.details], the resolver of the [details] field; the locale
    that the schema fills in when the query gives none is passed like
    any other.  [from_pydantic] is [HeroDetailsType.from_pydantic]. *)
Definition details {Request Downstream Raw Hero HeroDetailsType : Type}
    (cache_ttl_header : string) (Locale HeroKey : EnumClass)
    (Hero_model_validate : Raw -> result Hero)
    (get_hero_process_request :
       Request -> member * member -> Downstream ->
       (gmap string string * result Raw) * Downstream)
    (from_pydantic : Hero -> HeroDetailsType)
    (locale : member)
    : M (HeroNode.t Hero * World Request Downstream) HeroDetailsType :=
  hero <- _load_details cache_ttl_header Locale HeroKey Hero_model_validate
            get_hero_process_request locale ;;
  ret (from_pydantic hero).

(** No two different records of a downstream list have equal keys. *)
Definition distinct_keys (hero_shorts : list HeroShort.t) : Prop :=
  forall h h', h ∈ hero_shorts -> h' ∈ hero_shorts ->
    has_key (HeroShort.key h) h' = true -> h = h'.

(** Every member listed by an enum class is an instance of it. *)
Definition members_tagged (E : EnumClass) : Prop :=
  Forall (fun m => m_cls m = cls_name E) (members E).

(** ** Sample data: backends that fail or answer badly *)

Module Faulty.

(** A list controller whose second item the model rejects. *)
Definition invalid_item_process_request (_ : unit)
    (kw : option member * member) (n : nat)
    : (gmap string string * result (list string)) * nat :=
  ({[ Sample.cache_ttl_header := "600" ]}, Ok ["ana"; "bogus"; "sojourn"], S n).

(** A list controller that writes a TTL and then raises. *)
Definition list_failing_process_request (_ : unit)
    (kw : option member * member) (n : nat)
    : (gmap string string * result (list string)) * nat :=
  ({[ Sample.cache_ttl_header := "5" ]}, Raise (OtherError "BlizzardError"), S n).

(** A detail controller that returns a payload the model rejects. *)
Definition empty_payload_process_request (_ : unit)
    (kw : member * member) (n : nat)
    : (gmap string string * result string) * nat :=
  ({[ Sample.cache_ttl_header := "120" ]}, Ok "", S n).

(** A node whose key no enum declares. *)
Definition stranger_node : HeroNode.t string :=
  {| HeroNode.key := Sample.STRANGER; HeroNode.name := "Nobody";
     HeroNode.portrait := "https://example.com/nobody.png";
     HeroNode.role := Sample.SUPPORT; HeroNode._details_cache := [] |}.

(** A context that already stores a TTL, in step with its response. *)
Definition stored_context : GraphQLContext unit :=
  {| request := tt;
     response := {[ Sample.cache_ttl_header := "3600"; "content-type" := "application/json" ]};
     cache_ttl := Some 3600 |}.

End Faulty.

(** * Properties *)

Example int_examples :
  Py.int "60" = Some 60 /\ Py.int " +1_000 " = Some 1000 /\
  Py.int "-5" = Some (-5) /\ Py.int "007" = Some 7 /\
  Py.int "" = None /\ Py.int "1__0" = None /\ Py.int "_1" = None /\
  Py.int "1_" = None /\ Py.int "- 5" = None /\ Py.int "5.0" = None /\
  Py.int "abc" = None /\ Py.str (-5) = "-5" /\ Py.str 0 = "0" /\
  Py.str 1000 = "1000".
Proof. vm_compute. repeat split. Qed.

(** ** Request context *)

Section ContextProps.

Context {Request : Type}.
Variable cache_ttl_header : string.

Abbreviation merge := (merge_cache_ttl (Request:=Request) cache_ttl_header).
Abbreviation merge_seq := (merge_all (Request:=Request) cache_ttl_header).

Lemma list_min_None (l : list Z) : list_min l = None <-> l = [].
Proof.
  destruct l as [|x l]; simpl; [done|].
  destruct (list_min l); split; intros; discriminate.
Qed.

(** [list_min] is the minimum: an element, below every element. *)
Lemma list_min_spec (l : list Z) (m : Z) :
  list_min l = Some m <-> m ∈ l /\ Forall (fun x => m <= x) l.
Proof.
  revert m. induction l as [|x l IH]; intros m; simpl.
  - split; [discriminate | intros [H _]; inversion H].
  - destruct (list_min l) as [m'|] eqn:E.
    + destruct (proj1 (IH m') eq_refl) as [Hin Hle].
      rewrite Forall_forall in Hle.
      split.
      * intros [= <-]. split.
        -- destruct (Z.min_spec x m') as [[_ ->]|[_ ->]];
             [left | right; exact Hin].
        -- constructor; [lia|].
           apply Forall_forall. intros y Hy. specialize (Hle _ Hy). lia.
      * intros [Hm Hall]. apply Forall_cons in Hall as [Hx Hall].
        rewrite Forall_forall in Hall. f_equal.
        apply elem_of_cons in Hm as [->|Hm].
        -- specialize (Hall _ Hin). lia.
        -- specialize (Hle _ Hm). specialize (Hall _ Hin). lia.
    + apply list_min_None in E. subst l. split.
      * intros [= <-]. split; [left | repeat constructor; lia].
      * intros [Hm _]. apply list_elem_of_singleton in Hm. by subst.
Qed.

(** One call, by cases on what [int] makes of the header. *)
Lemma merge_unparsed (ctx : GraphQLContext Request) (h : option string) :
  h ≫= Py.int = None -> merge ctx h = ctx.
Proof.
  unfold merge_cache_ttl. destruct h as [h|]; simpl; [|done].
  by intros ->.
Qed.

Lemma merge_parsed (ctx : GraphQLContext Request) (h : option string) (v : Z) :
  h ≫= Py.int = Some v ->
  merge ctx h =
    if match cache_ttl ctx with None => true | Some c => v <? c end
    then {| request := request ctx;
            response := <[cache_ttl_header := Py.str v]> (response ctx);
            cache_ttl := Some v |}
    else ctx.
Proof.
  unfold merge_cache_ttl. destruct h as [h|]; simpl; [|done].
  by intros ->.
Qed.

Lemma parsed_values_cons (h : option string) (hs : list (option string)) :
  parsed_values (h :: hs) =
    match h ≫= Py.int with
    | Some v => v :: parsed_values hs
    | None => parsed_values hs
    end.
Proof. reflexivity. Qed.

(** The effect of a whole call sequence on any context: nothing, or the
    minimum of the parsed values if that is below what was stored. *)
Lemma merge_seq_spec (hs : list (option string)) :
  forall ctx : GraphQLContext Request,
    match list_min (parsed_values hs) with
    | None => merge_seq ctx hs = ctx
    | Some m =>
        if match cache_ttl ctx with None => true | Some c => m <? c end
        then merge_seq ctx hs =
               {| request := request ctx;
                  response := <[cache_ttl_header := Py.str m]> (response ctx);
                  cache_ttl := Some m |}
        else merge_seq ctx hs = ctx
    end.
Proof.
  induction hs as [|h hs IH]; intros ctx; [reflexivity|].
  change (merge_seq ctx (h :: hs)) with (merge_seq (merge ctx h) hs).
  rewrite parsed_values_cons.
  destruct (h ≫= Py.int) as [v|] eqn:Hh.
  - rewrite (merge_parsed _ _ _ Hh). simpl list_min.
    specialize (IH (if match cache_ttl ctx with None => true | Some c => v <? c end
                    then {| request := request ctx;
                            response := <[cache_ttl_header := Py.str v]> (response ctx);
                            cache_ttl := Some v |}
                    else ctx)).
    destruct (list_min (parsed_values hs)) as [m'|];
      destruct (cache_ttl ctx) as [c|] eqn:Hc; simpl in *;
      repeat match goal with
             | |- context [(?a <? ?b)] => destruct (Z.ltb_spec a b)
             | H : context [(?a <? ?b)] |- _ => destruct (Z.ltb_spec a b)
             | H : context [cache_ttl ctx] |- _ => rewrite Hc in H
             | _ => progress simpl in *
             end;
      try lia; rewrite ?IH; simpl; rewrite ?insert_insert_eq;
      try reflexivity; try (repeat f_equal; lia).
  - rewrite (merge_unparsed _ _ Hh). apply IH.
Qed.

(** The stored value after a call sequence on a fresh context. *)
Lemma merge_cache_ttl_minimum_aux
    (req : Request) (resp : gmap string string) (hs : list (option string)) :
  match list_min (parsed_values hs) with
  | None =>
      cache_ttl (merge_seq (build_context req resp) hs) = None /\
      parsed_values hs = []
  | Some m =>
      cache_ttl (merge_seq (build_context req resp) hs) = Some m /\
      m ∈ parsed_values hs
  end.
Proof.
  pose proof (merge_seq_spec hs (build_context req resp)) as H.
  destruct (list_min (parsed_values hs)) as [m|] eqn:E.
  - simpl in H. rewrite H. split; [reflexivity|]. by apply list_min_spec.
  - rewrite H. split; [reflexivity|]. by apply list_min_None.
Qed.

(** C1. After any sequence of [merge_cache_ttl] calls on the context
    that [build_context] made, with header values absent, unparsable or
    parsable in any mix: if no value parsed, nothing is stored and the
    response headers are the ones the response started with (the header
    was never written); otherwise the stored [cache_ttl] is the minimum
    of the parsed values and the response carries that minimum, as
    [str] prints it, under the configured header name. *)
Theorem merge_cache_ttl_true_minimum
    (req : Request) (resp : gmap string string) (hs : list (option string)) :
  let ctx := merge_seq (build_context req resp) hs in
  match list_min (parsed_values hs) with
  | None =>
      parsed_values hs = [] /\ cache_ttl ctx = None /\ response ctx = resp
  | Some m =>
      (m ∈ parsed_values hs /\ Forall (fun v => m <= v) (parsed_values hs)) /\
      cache_ttl ctx = Some m /\
      response ctx !! cache_ttl_header = Some (Py.str m) /\
      response ctx = <[cache_ttl_header := Py.str m]> resp
  end.
Proof.
  intros ctx. subst ctx.
  pose proof (merge_seq_spec hs (build_context req resp)) as H.
  destruct (list_min (parsed_values hs)) as [m|] eqn:E.
  - simpl in H. rewrite H. simpl.
    split; [by apply list_min_spec|].
    split; [reflexivity|]. split; [apply lookup_insert_eq | reflexivity].
  - rewrite H. by apply list_min_None in E.
Qed.

(** C5. Once a value [c] is stored, every further call leaves a stored
    value that is at most [c]; a parsed header value at or above [c]
    changes neither the stored value nor the response headers, a
    strictly smaller one replaces the stored value and is written to
    the response, and an absent or unparsable header changes nothing. *)
Theorem cache_ttl_non_increasing
    (ctx : GraphQLContext Request) (h : option string) (c : Z)
    (Hstored : cache_ttl ctx = Some c) :
  (exists c', cache_ttl (merge ctx h) = Some c' /\ c' <= c) /\
  (forall v, h ≫= Py.int = Some v ->
     (c <= v -> merge ctx h = ctx) /\
     (v < c ->
        cache_ttl (merge ctx h) = Some v /\
        response (merge ctx h) = <[cache_ttl_header := Py.str v]> (response ctx))) /\
  (h ≫= Py.int = None -> merge ctx h = ctx).
Proof.
  split; [|split].
  - destruct (h ≫= Py.int) as [v|] eqn:Hh.
    + rewrite (merge_parsed _ _ _ Hh), Hstored.
      destruct (Z.ltb_spec v c); simpl.
      * exists v. split; [reflexivity | lia].
      * exists c. split; [exact Hstored | lia].
    + rewrite (merge_unparsed _ _ Hh). exists c. split; [exact Hstored | lia].
  - intros v Hh. rewrite (merge_parsed _ _ _ Hh), Hstored.
    destruct (Z.ltb_spec v c); split; intros; try lia; done.
  - apply merge_unparsed.
Qed.

(** C10, as the code has it.  The stored [cache_ttl] is unset or one of
    the parsed header values; so it is not negative as long as no header
    of the sequence parsed to a negative integer. *)
Theorem cache_ttl_non_negative_for_non_negative_headers
    (req : Request) (resp : gmap string string) (hs : list (option string))
    (Hnonneg : Forall (fun v => 0 <= v) (parsed_values hs)) :
  match cache_ttl (merge_seq (build_context req resp) hs) with
  | None => parsed_values hs = []
  | Some c => c ∈ parsed_values hs /\ 0 <= c
  end.
Proof.
  pose proof (merge_cache_ttl_minimum_aux req resp hs) as H.
  destruct (list_min (parsed_values hs)) as [m|] eqn:E.
  - destruct H as [Hc Hm]. rewrite Hc. split; [exact Hm|].
    rewrite Forall_forall in Hnonneg. by apply Hnonneg.
  - destruct H as [Hc Hm]. by rewrite Hc.
Qed.

End ContextProps.

Lemma cache_ttl_non_increasing_witness :
  let ctx := merge_cache_ttl Sample.cache_ttl_header Sample.fresh_context (Some "60") in
  cache_ttl ctx = Some 60 /\
  merge_cache_ttl Sample.cache_ttl_header ctx (Some "90") = ctx /\
  cache_ttl (merge_cache_ttl Sample.cache_ttl_header ctx (Some "30")) = Some 30.
Proof.
  intros ctx.
  assert (Hstored : cache_ttl ctx = Some 60) by reflexivity.
  split; [exact Hstored|]. split.
  - destruct (cache_ttl_non_increasing Sample.cache_ttl_header ctx (Some "90") 60 Hstored)
      as (_ & H & _).
    destruct (H 90 eq_refl) as [Hge _]. apply Hge. lia.
  - destruct (cache_ttl_non_increasing Sample.cache_ttl_header ctx (Some "30") 60 Hstored)
      as (_ & H & _).
    destruct (H 30 eq_refl) as [_ Hlt]. apply Hlt. lia.
Defined.

(** A header that parses to a negative integer is stored as it is. *)
Lemma cache_ttl_negative_counterexample :
  ~ (forall (hs : list (option string)) (c : Z),
       cache_ttl (merge_all Sample.cache_ttl_header Sample.fresh_context hs) = Some c ->
       0 <= c).
Proof.
  intros H. specialize (H [Some "-5"] (-5) eq_refl). lia.
Qed.

Lemma cache_ttl_non_negative_witness :
  Forall (fun v => 0 <= v) (parsed_values [Some "60"; None; Some "abc"; Some "0"]) /\
  match cache_ttl (merge_all Sample.cache_ttl_header Sample.fresh_context
                     [Some "60"; None; Some "abc"; Some "0"]) with
  | None => parsed_values [Some "60"; None; Some "abc"; Some "0"] = []
  | Some c => c ∈ parsed_values [Some "60"; None; Some "abc"; Some "0"] /\ 0 <= c
  end.
Proof.
  assert (H : Forall (fun v => 0 <= v)
                (parsed_values [Some "60"; None; Some "abc"; Some "0"])).
  { vm_compute. repeat constructor; discriminate. }
  split; [exact H|].
  exact (cache_ttl_non_negative_for_non_negative_headers
           Sample.cache_ttl_header tt ∅ _ H).
Defined.

Example merge_sequence_example :
  let ctx := merge_all Sample.cache_ttl_header Sample.fresh_context
               [Some "86400"; None; Some "abc"; Some " 3600 "; Some "7200"] in
  cache_ttl ctx = Some 3600 /\
  response ctx !! Sample.cache_ttl_header = Some "3600".
Proof. vm_compute. split; reflexivity. Qed.

(** ** Equality of Python values and dictionaries *)

Lemma py_eq_refl (a : value) : py_eq a a = true.
Proof.
  unfold py_eq. destruct (str_content a); by apply bool_decide_eq_true.
Qed.

Lemma py_eq_sym (a b : value) : py_eq a b = py_eq b a.
Proof.
  unfold py_eq. destruct (str_content a), (str_content b); try reflexivity;
    apply bool_decide_ext; split; congruence.
Qed.

Lemma py_eq_trans (a b c : value) :
  py_eq a b = true -> py_eq b c = true -> py_eq a c = true.
Proof.
  unfold py_eq.
  destruct (str_content a), (str_content b), (str_content c);
    try discriminate; rewrite !bool_decide_eq_true; congruence.
Qed.

(** Equal keys are interchangeable in comparisons. *)
Lemma py_eq_congr (a b c : value) :
  py_eq a b = true -> py_eq a c = py_eq b c.
Proof.
  intros Hab. destruct (py_eq b c) eqn:Hbc.
  - by apply (py_eq_trans a b c).
  - destruct (py_eq a c) eqn:Hac; [|reflexivity].
    rewrite py_eq_sym in Hab.
    by rewrite (py_eq_trans b a c Hab Hac) in Hbc.
Qed.

Section DictProps.

Context {V : Type}.

Lemma dict_get_set_eq (d : dict V) (k k' : value) (v : V) :
  py_eq k k' = true -> dict_get (dict_set d k v) k' = Some v.
Proof.
  intros Hk. induction d as [|[k0 v0] d IH]; simpl.
  - by rewrite Hk.
  - destruct (py_eq k0 k) eqn:E; simpl.
    + by rewrite (py_eq_congr k0 k k' E), Hk.
    + destruct (py_eq k0 k') eqn:E'; [|exact IH].
      rewrite py_eq_sym in Hk. rewrite py_eq_sym in E'.
      rewrite (py_eq_sym k0 k), <- (py_eq_congr k' k k0 Hk), E' in E.
      discriminate.
Qed.

Lemma dict_get_set_ne (d : dict V) (k k' : value) (v : V) :
  py_eq k k' = false -> dict_get (dict_set d k v) k' = dict_get d k'.
Proof.
  intros Hk. induction d as [|[k0 v0] d IH]; simpl.
  - by rewrite Hk.
  - destruct (py_eq k0 k) eqn:E; simpl.
    + by rewrite (py_eq_congr k0 k k' E), Hk.
    + by rewrite IH.
Qed.

Lemma dict_get_set (d : dict V) (k k' : value) (v : V) :
  dict_get (dict_set d k v) k' = if py_eq k k' then Some v else dict_get d k'.
Proof.
  destruct (py_eq k k') eqn:E;
    [by apply dict_get_set_eq | by apply dict_get_set_ne].
Qed.

End DictProps.

(** ** The key filter *)

Lemma by_key_of_snoc (hs : list HeroShort.t) (x : HeroShort.t) :
  by_key_of (hs ++ [x]) = dict_set (by_key_of hs) (VEnum (HeroShort.key x)) x.
Proof. unfold by_key_of. by rewrite foldl_app. Qed.

Lemma by_key_get_snoc (hs : list HeroShort.t) (x : HeroShort.t) (k : member) :
  dict_get (by_key_of (hs ++ [x])) (VEnum k) =
    if has_key k x then Some x else dict_get (by_key_of hs) (VEnum k).
Proof. by rewrite by_key_of_snoc, dict_get_set. Qed.

(** What the lookup holds under a key: a record of the downstream list
    with that key, or nothing when the list has none. *)
Lemma by_key_get_cases (hs : list HeroShort.t) (k : member) :
  match dict_get (by_key_of hs) (VEnum k) with
  | Some h => h ∈ hs /\ has_key k h = true
  | None => Forall (fun h => has_key k h = false) hs
  end.
Proof.
  induction hs as [|x hs IH] using rev_ind; [constructor|].
  rewrite by_key_get_snoc. destruct (has_key k x) eqn:E.
  - split; [|exact E]. apply elem_of_app. right. by left.
  - destruct (dict_get (by_key_of hs) (VEnum k)) as [h|].
    + destruct IH as [Hin Hk]. split; [|exact Hk]. apply elem_of_app. by left.
    + apply Forall_app. split; [exact IH|]. by constructor.
Qed.

(** The last record under a key is the one the lookup holds. *)
Lemma by_key_get_last (pre post : list HeroShort.t) (h : HeroShort.t) (k : member) :
  has_key k h = true ->
  Forall (fun h' => has_key k h' = false) post ->
  dict_get (by_key_of (pre ++ h :: post)) (VEnum k) = Some h.
Proof.
  intros Hh. induction post as [|x post IH] using rev_ind; intros Hpost.
  - by rewrite by_key_get_snoc, Hh.
  - apply Forall_app in Hpost as [Hpost Hx]. apply Forall_cons in Hx as [Hx _].
    replace (pre ++ h :: post ++ [x]) with ((pre ++ h :: post) ++ [x])
      by (by rewrite <- app_assoc).
    rewrite by_key_get_snoc, Hx. by apply IH.
Qed.

Lemma has_key_congr (k k' : member) (h : HeroShort.t) :
  py_eq (VEnum k') (VEnum k) = true -> has_key k' h = has_key k h.
Proof.
  intros Hk. unfold has_key.
  rewrite (py_eq_sym _ (VEnum k')), (py_eq_sym _ (VEnum k)).
  by apply py_eq_congr.
Qed.

(** The loop over the caller's keys collects, in their order, what the
    lookup holds for each. *)
Lemma filter_loop (by_key : dict HeroShort.t) (keys : list member)
    (filtered : list HeroShort.t) :
  foldl (fun filtered key =>
           match dict_get by_key (VEnum key) with
           | Some hero => filtered ++ [hero]
           | None => filtered
           end) filtered keys =
  filtered ++ omap (fun key => dict_get by_key (VEnum key)) keys.
Proof.
  revert filtered. induction keys as [|k keys IH]; intros filtered; simpl.
  - by rewrite app_nil_r.
  - rewrite IH. destruct (dict_get by_key (VEnum k)); [|reflexivity].
    by rewrite <- app_assoc.
Qed.

Lemma filter_by_keys_omap (hs : list HeroShort.t) (keys : list member) :
  keys <> [] ->
  _filter_by_keys hs keys =
    omap (fun key => dict_get (by_key_of hs) (VEnum key)) keys.
Proof.
  intros Hkeys. destruct keys as [|k keys]; [done|].
  unfold _filter_by_keys. by rewrite filter_loop.
Qed.

(** C3. With a non-empty list of keys, the key filter goes through the
    caller's keys in the order given and emits, for each occurrence of
    a key, what the lookup built from the downstream list holds under
    it: a downstream record with that key when there is one, and
    nothing when the downstream list has no record with that key.
    Repeated keys are looked up again, so they are emitted again. *)
Theorem filter_by_keys_caller_order
    (hs : list HeroShort.t) (keys : list member) (Hkeys : keys <> []) :
  _filter_by_keys hs keys =
    omap (fun key => dict_get (by_key_of hs) (VEnum key)) keys /\
  (forall key,
     match dict_get (by_key_of hs) (VEnum key) with
     | Some hero => hero ∈ hs /\ has_key key hero = true
     | None => Forall (fun hero => has_key key hero = false) hs
     end) /\
  (forall a b c,
     hs = [a; b; c] ->
     has_key (HeroShort.key a) b = false ->
     has_key (HeroShort.key a) c = false ->
     has_key (HeroShort.key b) c = false ->
     keys = [HeroShort.key c; HeroShort.key a; HeroShort.key c] ->
     _filter_by_keys hs keys = [c; a; c]).
Proof.
  split; [by apply filter_by_keys_omap|].
  split; [intros key; apply by_key_get_cases|].
  intros a b c -> Hab Hac Hbc ->.
  rewrite filter_by_keys_omap by done. simpl omap.
  assert (Hc : dict_get (by_key_of [a; b; c]) (VEnum (HeroShort.key c)) = Some c).
  { apply (by_key_get_last [a; b] [] c); [apply py_eq_refl | constructor]. }
  assert (Ha : dict_get (by_key_of [a; b; c]) (VEnum (HeroShort.key a)) = Some a).
  { apply (by_key_get_last [] [b; c] a); [apply py_eq_refl|].
    repeat constructor; assumption. }
  by rewrite Hc, Ha.
Qed.

(** C9. With a non-empty list of keys, when several downstream records
    have the same key the lookup holds the last of them in downstream
    order, and every node emitted for that key wraps this last record,
    once per occurrence of the key among the caller's keys. *)
Theorem filter_by_keys_last_write_wins
    (pre post : list HeroShort.t) (h : HeroShort.t)
    (keys : list member) (k : member)
    (Hkeys : keys <> [])
    (Hh : has_key k h = true)
    (Hpost : Forall (fun h' => has_key k h' = false) post) :
  dict_get (by_key_of (pre ++ h :: post)) (VEnum k) = Some h /\
  filter (fun x => has_key k x = true) (_filter_by_keys (pre ++ h :: post) keys) =
    replicate (length (filter (fun k' => py_eq (VEnum k') (VEnum k) = true) keys)) h.
Proof.
  split; [by apply by_key_get_last|].
  rewrite filter_by_keys_omap by done. clear Hkeys.
  induction keys as [|k' keys IH]; [reflexivity|].
  simpl omap. destruct (py_eq (VEnum k') (VEnum k)) eqn:E.
  - rewrite (by_key_get_last pre post h k').
    + rewrite filter_cons_True by exact Hh.
      rewrite (filter_cons_True _ k') by exact E. simpl. f_equal. exact IH.
    + by rewrite (has_key_congr k k' h E).
    + eapply Forall_impl; [exact Hpost|]. intros x Hx. simpl in Hx.
      by rewrite (has_key_congr k k' x E).
  - rewrite (filter_cons_False _ k') by (by rewrite E).
    pose proof (by_key_get_cases (pre ++ h :: post) k') as Hc.
    destruct (dict_get (by_key_of (pre ++ h :: post)) (VEnum k')) as [x|];
      [|exact IH].
    destruct Hc as [_ Hx]. rewrite filter_cons_False; [exact IH|].
    intros Hkx. unfold has_key in Hx, Hkx.
    rewrite py_eq_sym in Hx.
    by rewrite (py_eq_trans _ _ _ Hx Hkx) in E.
Qed.

Lemma filter_by_keys_caller_order_witness :
  [Sample.SOJOURN; Sample.ANA; Sample.SOJOURN] <> [] /\
  _filter_by_keys [Sample.ana; Sample.lucio; Sample.sojourn]
                  [Sample.SOJOURN; Sample.ANA; Sample.SOJOURN]
    = [Sample.sojourn; Sample.ana; Sample.sojourn].
Proof.
  assert (H : [Sample.SOJOURN; Sample.ANA; Sample.SOJOURN] <> []) by discriminate.
  split; [exact H|].
  destruct (filter_by_keys_caller_order
              [Sample.ana; Sample.lucio; Sample.sojourn]
              [Sample.SOJOURN; Sample.ANA; Sample.SOJOURN] H) as (_ & _ & Hex).
  apply (Hex Sample.ana Sample.lucio Sample.sojourn); reflexivity.
Defined.

Lemma filter_by_keys_last_write_wins_witness :
  filter (fun x => has_key Sample.ANA x = true)
    (_filter_by_keys ([Sample.ana] ++ Sample.ana_again :: [Sample.sojourn])
                     [Sample.ANA; Sample.SOJOURN; Sample.ANA])
    = [Sample.ana_again; Sample.ana_again].
Proof.
  assert (Hkeys : [Sample.ANA; Sample.SOJOURN; Sample.ANA] <> []) by discriminate.
  assert (Hh : has_key Sample.ANA Sample.ana_again = true) by reflexivity.
  assert (Hpost : Forall (fun h' => has_key Sample.ANA h' = false) [Sample.sojourn])
    by (repeat constructor).
  exact (proj2 (filter_by_keys_last_write_wins
                  [Sample.ana] [Sample.sojourn] Sample.ana_again
                  [Sample.ANA; Sample.SOJOURN; Sample.ANA] Sample.ANA
                  Hkeys Hh Hpost)).
Defined.

(** Keys the downstream list does not have are skipped. *)
Example filter_by_keys_missing_key :
  _filter_by_keys [Sample.ana; Sample.sojourn] [Sample.ANA; Sample.LUCIO]
    = [Sample.ana].
Proof. reflexivity. Qed.

Example filter_by_keys_duplicate_downstream :
  _filter_by_keys [Sample.ana; Sample.ana_again; Sample.sojourn]
                  [Sample.SOJOURN; Sample.ANA]
    = [Sample.sojourn; Sample.ana_again].
Proof. reflexivity. Qed.

(** ** Enum crosswalk *)

Lemma instance_of_Some (v : value) (E : EnumClass) (m : member) :
  instance_of v E = Some m -> v = VEnum m /\ m_cls m = cls_name E.
Proof.
  destruct v as [s|m']; simpl; [discriminate|].
  case_bool_decide; [|discriminate]. by intros [= <-].
Qed.

Lemma instance_of_isinstance (v : value) (E : EnumClass) :
  isinstance v E = false -> instance_of v E = None.
Proof. unfold isinstance. by destruct (instance_of v E). Qed.

Lemma instance_of_member (m : member) (E : EnumClass) :
  isinstance (VEnum m) E = true -> instance_of (VEnum m) E = Some m.
Proof.
  unfold isinstance. simpl. by case_bool_decide.
Qed.

(** [E(v)] by cases. *)
Lemma enum_call_instance (E : EnumClass) (v : value) (m : member) :
  instance_of v E = Some m -> enum_call E v = Ok m.
Proof. unfold enum_call. by intros ->. Qed.

Lemma enum_call_has_value (E : EnumClass) (v : value) :
  has_value E v = true ->
  exists m, enum_call E v = Ok m.
Proof.
  intros Hv. unfold enum_call.
  destruct (instance_of v E) as [m|]; [by exists m|].
  destruct (find (fun m => py_eq (m_value m) v) (members E)) as [m|] eqn:F;
    [by exists m|].
  apply existsb_exists in Hv as (m & Hin & Hm).
  by rewrite (find_none _ _ F m Hin) in Hm.
Qed.

Lemma enum_call_unknown (E : EnumClass) (v : value) :
  known E v = false -> enum_call E v = Raise ValueError.
Proof.
  unfold known. intros [Hi Hv]%orb_false_elim. unfold enum_call.
  rewrite (instance_of_isinstance _ _ Hi).
  destruct (find (fun m => py_eq (m_value m) v) (members E)) as [m|] eqn:F;
    [|reflexivity].
  apply find_some in F as [Hin Hm].
  assert (has_value E v = true) by (apply existsb_exists; eauto).
  congruence.
Qed.

(** [E(v)] raises nothing but [ValueError]. *)
Lemma enum_call_raises (E : EnumClass) (v : value) (e : exn) :
  enum_call E v = Raise e -> e = ValueError.
Proof.
  unfold enum_call. destruct (instance_of v E); [discriminate|].
  destruct (find _ _); [discriminate|]. by intros [= <-].
Qed.

(** The shape shared by [_convert_role], [_convert_locale] and
    [_enum_to_hero_key]. *)
Lemma to_domain_shape {A} (D : EnumClass) (f : member -> result A)
    (inj : member -> A) :
  (forall x, f x = match instance_of (m_value x) D with
                   | Some v => Ok (inj v)
                   | None => rbind (enum_call D (m_value x)) (fun r => Ok (inj r))
                   end) ->
  to_domain_cases D f inj.
Proof.
  intros Hf x. rewrite Hf. repeat split.
  - intros d -> Hd. by rewrite (instance_of_member _ _ Hd).
  - intros Hv. destruct (instance_of (m_value x) D) as [d|]; [by exists d|].
    destruct (enum_call_has_value _ _ Hv) as [d ->]. by exists d.
  - intros Hk. rewrite (enum_call_unknown _ _ Hk).
    apply orb_false_elim in Hk as [Hi _].
    by rewrite (instance_of_isinstance _ _ Hi).
Qed.

(** The shape shared by [_hero_key_to_enum] and [_role_to_enum]. *)
Lemma to_wire_shape (W : EnumClass) (f : member -> result member) :
  (forall y, f y = match enum_call W (VEnum y) with
                   | Ok m => Ok m
                   | Raise ValueError => enum_call W (m_value y)
                   | Raise e => Raise e
                   end) ->
  to_wire_cases W f.
Proof.
  intros Hf y. rewrite Hf. repeat split.
  - intros Hy. by rewrite (enum_call_instance _ _ _ (instance_of_member _ _ Hy)).
  - intros Hv. destruct (enum_call W (VEnum y)) as [m|e] eqn:E; [by exists m|].
    rewrite (enum_call_raises _ _ _ E). by apply enum_call_has_value.
  - intros Hy Hv. by rewrite (enum_call_unknown _ _ Hy), (enum_call_unknown _ _ Hv).
Qed.

Lemma rbind_Ok {A} (r : result A) : rbind r Ok = r.
Proof. by destruct r. Qed.

Section CrosswalkProps.

Variables Role Locale HeroKey : EnumClass.

(** C7. Every conversion of the crosswalk, into the domain enum
    ([_convert_role], [_convert_locale], [_enum_to_hero_key]) and into
    the wire enum ([_role_to_enum], [_hero_key_to_enum]): a value that
    is already of the target enum is returned as it is; a value whose
    code is the value of a member of the target enum converts; and a
    value the target enum does not know makes the conversion fail with
    [ValueError], the UnknownEnumValue of the design.  An absent role
    stays absent. *)
Theorem crosswalk_conversion_cases :
  to_domain_cases Role (fun x => _convert_role Role (Some x)) Some /\
  _convert_role Role None = Ok None /\
  to_domain_cases Locale (_convert_locale Locale) id /\
  to_domain_cases HeroKey (_enum_to_hero_key HeroKey) id /\
  to_wire_cases (RoleEnum Role) (_role_to_enum Role) /\
  to_wire_cases (HeroKeyEnum HeroKey) (_hero_key_to_enum HeroKey).
Proof.
  split; [by apply to_domain_shape|].
  split; [reflexivity|].
  split; [apply to_domain_shape; intros x; unfold _convert_locale;
          by rewrite rbind_Ok|].
  split; [apply to_domain_shape; intros x; unfold _enum_to_hero_key;
          by rewrite rbind_Ok|].
  split; by apply to_wire_shape.
Qed.

End CrosswalkProps.

(** *** Declared members *)

Lemma enum_wf_member (E : EnumClass) (x : member) :
  enum_wf E = true -> x ∈ members E ->
  m_cls x = cls_name E /\ exists s, m_value x = VStr s.
Proof.
  unfold enum_wf. intros [Hall _]%andb_prop Hx.
  rewrite forallb_forall in Hall.
  specialize (Hall x (proj1 (list_elem_of_In _ _) Hx)).
  apply andb_prop in Hall as [Hc Hs].
  split; [by apply bool_decide_eq_true in Hc|].
  destruct (m_value x) as [s|]; [by exists s | discriminate].
Qed.

Lemma enum_wf_NoDup (E : EnumClass) :
  enum_wf E = true -> NoDup (map m_value (members E)).
Proof.
  unfold enum_wf. intros [_ H]%andb_prop. by apply bool_decide_eq_true in H.
Qed.

Lemma py_eq_VStr (s t : string) : py_eq (VStr s) (VStr t) = true -> s = t.
Proof. unfold py_eq. simpl. by rewrite bool_decide_eq_true. Qed.

(** Among members with distinct plain values, the value lookup finds
    the member whose value is asked for. *)
Lemma find_own_value (l : list member) (x : member) :
  (forall m, m ∈ l -> exists s, m_value m = VStr s) ->
  NoDup (map m_value l) ->
  x ∈ l ->
  find (fun m => py_eq (m_value m) (m_value x)) l = Some x.
Proof.
  induction l as [|m l IH]; intros Hstr Hnd Hx; [by inversion Hx|].
  simpl in *. apply NoDup_cons in Hnd as [Hm Hnd].
  destruct (py_eq (m_value m) (m_value x)) eqn:E.
  - apply elem_of_cons in Hx as [->|Hx]; [reflexivity|]. exfalso.
    destruct (Hstr m) as [s Hs]; [by left|].
    destruct (Hstr x) as [t Ht]; [by right|].
    rewrite Hs, Ht in E. apply py_eq_VStr in E. subst t.
    apply Hm. rewrite Hs, <- Ht. apply list_elem_of_fmap. by exists x.
  - apply elem_of_cons in Hx as [->|Hx]; [by rewrite py_eq_refl in E|].
    apply IH; [|exact Hnd|exact Hx].
    intros m' Hm'. apply Hstr. by right.
Qed.

Lemma instance_of_own_value (E : EnumClass) (x : member) :
  enum_wf E = true -> x ∈ members E -> instance_of (m_value x) E = None.
Proof.
  intros Hwf Hx. destruct (enum_wf_member E x Hwf Hx) as [_ [s ->]]. reflexivity.
Qed.

Lemma enum_call_own_value (E : EnumClass) (x : member) :
  enum_wf E = true -> x ∈ members E -> enum_call E (m_value x) = Ok x.
Proof.
  intros Hwf Hx. unfold enum_call.
  rewrite (instance_of_own_value E x Hwf Hx).
  rewrite find_own_value; [reflexivity| |by apply enum_wf_NoDup|exact Hx].
  intros m Hm. by destruct (enum_wf_member E m Hwf Hm).
Qed.

Lemma enum_call_own_member (E : EnumClass) (x : member) :
  enum_wf E = true -> x ∈ members E -> enum_call E (VEnum x) = Ok x.
Proof.
  intros Hwf Hx. apply enum_call_instance. simpl.
  destruct (enum_wf_member E x Hwf Hx) as [Hc _]. by rewrite bool_decide_true.
Qed.

Section RoundTrip.

Variables Role Locale HeroKey : EnumClass.
Hypothesis Role_wf : enum_wf Role = true.
Hypothesis Locale_wf : enum_wf Locale = true.
Hypothesis HeroKey_wf : enum_wf HeroKey = true.

Lemma convert_role_member (x : member) :
  x ∈ members Role -> _convert_role Role (Some x) = Ok (Some x).
Proof.
  intros Hx. unfold _convert_role.
  by rewrite instance_of_own_value, enum_call_own_value.
Qed.

Lemma role_to_enum_member (x : member) :
  x ∈ members Role -> _role_to_enum Role x = Ok x.
Proof.
  intros Hx. unfold _role_to_enum, RoleEnum, strawberry_enum.
  by rewrite enum_call_own_member.
Qed.

Lemma enum_to_hero_key_member (x : member) :
  x ∈ members HeroKey -> _enum_to_hero_key HeroKey x = Ok x.
Proof.
  intros Hx. unfold _enum_to_hero_key.
  by rewrite instance_of_own_value, enum_call_own_value.
Qed.

Lemma hero_key_to_enum_member (x : member) :
  x ∈ members HeroKey -> _hero_key_to_enum HeroKey x = Ok x.
Proof.
  intros Hx. unfold _hero_key_to_enum, HeroKeyEnum, strawberry_enum.
  by rewrite enum_call_own_member.
Qed.

Lemma convert_locale_member (x : member) :
  x ∈ members Locale -> _convert_locale Locale x = Ok x.
Proof.
  intros Hx. unfold _convert_locale.
  by rewrite instance_of_own_value, enum_call_own_value.
Qed.

(** C6. For the enums as the domain declares them and the wire enums
    that [types.py] derives from them: converting a declared wire
    member to the domain and back to the wire gives the member again,
    and so does converting a declared domain member to the wire and
    back, for [Role] and for [HeroKey]; for [Locale], whose only
    conversion in the schema is the one into the domain, that
    conversion gives the declared member again. *)
Theorem enum_round_trip :
  (forall x, x ∈ members (RoleEnum Role) ->
     exists d, _convert_role Role (Some x) = Ok (Some d) /\
               _role_to_enum Role d = Ok x) /\
  (forall y, y ∈ members Role ->
     exists w, _role_to_enum Role y = Ok w /\
               _convert_role Role (Some w) = Ok (Some y)) /\
  (forall x, x ∈ members (HeroKeyEnum HeroKey) ->
     exists d, _enum_to_hero_key HeroKey x = Ok d /\
               _hero_key_to_enum HeroKey d = Ok x) /\
  (forall y, y ∈ members HeroKey ->
     exists w, _hero_key_to_enum HeroKey y = Ok w /\
               _enum_to_hero_key HeroKey w = Ok y) /\
  (forall x, x ∈ members (LocaleEnum Locale) ->
     _convert_locale Locale x = Ok x).
Proof.
  repeat split.
  - intros x Hx. exists x.
    split; [by apply convert_role_member | by apply role_to_enum_member].
  - intros y Hy. exists y.
    split; [by apply role_to_enum_member | by apply convert_role_member].
  - intros x Hx. exists x.
    split; [by apply enum_to_hero_key_member | by apply hero_key_to_enum_member].
  - intros y Hy. exists y.
    split; [by apply hero_key_to_enum_member | by apply enum_to_hero_key_member].
  - intros x Hx. by apply convert_locale_member.
Qed.

End RoundTrip.

Lemma enum_round_trip_witness :
  enum_wf Sample.Role = true /\
  enum_wf Sample.Locale = true /\
  enum_wf Sample.HeroKey = true /\
  (exists d, _convert_role Sample.Role (Some Sample.SUPPORT) = Ok (Some d) /\
             _role_to_enum Sample.Role d = Ok Sample.SUPPORT) /\
  (exists w, _hero_key_to_enum Sample.HeroKey Sample.ANA = Ok w /\
             _enum_to_hero_key Sample.HeroKey w = Ok Sample.ANA) /\
  _convert_locale Sample.Locale Sample.ENGLISH_US = Ok Sample.ENGLISH_US.
Proof.
  assert (HR : enum_wf Sample.Role = true) by (vm_compute; reflexivity).
  assert (HL : enum_wf Sample.Locale = true) by (vm_compute; reflexivity).
  assert (HK : enum_wf Sample.HeroKey = true) by (vm_compute; reflexivity).
  destruct (enum_round_trip Sample.Role Sample.Locale Sample.HeroKey HR HL HK)
    as (H1 & _ & _ & H4 & H5).
  split; [exact HR|]. split; [exact HL|]. split; [exact HK|].
  split; [|split].
  - apply H1. right. left.
  - apply H4. left.
  - apply H5. right. left.
Defined.

Lemma crosswalk_conversion_cases_witness :
  _enum_to_hero_key Sample.HeroKey Sample.WRAPPED_ANA = Ok Sample.ANA /\
  _enum_to_hero_key Sample.HeroKey Sample.STRANGER = Raise ValueError /\
  _role_to_enum Sample.Role Sample.STRANGER = Raise ValueError /\
  _role_to_enum Sample.Role Sample.DAMAGE = Ok Sample.DAMAGE.
Proof.
  destruct (crosswalk_conversion_cases Sample.Role Sample.Locale Sample.HeroKey)
    as (_ & _ & _ & HK & HR & _).
  destruct (HK Sample.WRAPPED_ANA) as (Ha & _ & _).
  destruct (HK Sample.STRANGER) as (_ & _ & Hc).
  destruct (HR Sample.STRANGER) as (_ & _ & Hc').
  destruct (HR Sample.DAMAGE) as (Ha' & _ & _).
  split; [|split; [|split]].
  - by apply Ha.
  - by apply Hc.
  - by apply Hc'.
  - by apply Ha'.
Defined.

Example separate_classes_same_code :
  _enum_to_hero_key Sample.HeroKey (Member "HeroKeyWire" false "ANA" (VStr "ana"))
    = Ok Sample.ANA /\
  _hero_key_to_enum Sample.HeroKey (Member "HeroKeyDomain" false "ANA" (VStr "ana"))
    = Ok Sample.ANA.
Proof. split; reflexivity. Qed.

(** ** Controller bridge, entity node and query root *)

Section SchemaProps.

Context {Request Downstream Raw Hero : Type}.
Variable cache_ttl_header : string.
Variables Role Locale HeroKey : EnumClass.
Variable Hero_model_validate : Raw -> result Hero.
Variable HeroShort_model_validate : Raw -> result HeroShort.t.
Variable list_heroes_process_request :
  Request -> option member * member -> Downstream ->
  (gmap string string * result (list Raw)) * Downstream.
Variable get_hero_process_request :
  Request -> member * member -> Downstream ->
  (gmap string string * result Raw) * Downstream.

Abbreviation run_controller := (_run_controller cache_ttl_header).
Abbreviation load_details :=
  (_load_details cache_ttl_header Locale HeroKey Hero_model_validate
     get_hero_process_request).
Abbreviation make_hero_node := (_make_hero_node (Hero:=Hero) Role HeroKey).
Abbreviation query_heroes :=
  (heroes (Hero:=Hero) cache_ttl_header Role Locale HeroKey
     HeroShort_model_validate list_heroes_process_request).

(** C8. When [process_request] of the controller raises, whatever it
    has put on the scratch response, [_run_controller] raises the very
    same exception and the context is the one it was before the call:
    stored [cache_ttl] and response headers are untouched.  Only the
    backend state moves on and the call is on the log. *)
Theorem run_controller_failure_propagates {K A}
    (controller_cls : Controller Request Downstream K A) (kwargs : K)
    (w : World Request Downstream)
    (temp_response : gmap string string) (e : exn) (d : Downstream)
    (Hraises : process_request controller_cls (request (context w)) kwargs
                 (downstream w) = (temp_response, Raise e, d)) :
  run_controller controller_cls kwargs w =
    (Raise e,
     {| context := context w;
        downstream := d;
        awaited := awaited w ++ [kind controller_cls] |}) /\
  cache_ttl (context (snd (run_controller controller_cls kwargs w)))
    = cache_ttl (context w) /\
  response (context (snd (run_controller controller_cls kwargs w)))
    = response (context w).
Proof.
  unfold _run_controller. rewrite Hraises. simpl. done.
Qed.

(** A call that returns merges the TTL of the scratch response. *)
Lemma run_controller_success {K A}
    (controller_cls : Controller Request Downstream K A) (kwargs : K)
    (w : World Request Downstream)
    (temp_response : gmap string string) (payload : A) (d : Downstream) :
  process_request controller_cls (request (context w)) kwargs (downstream w)
    = (temp_response, Ok payload, d) ->
  run_controller controller_cls kwargs w =
    (Ok payload,
     {| context := merge_cache_ttl cache_ttl_header (context w)
                     (temp_response !! cache_ttl_header);
        downstream := d;
        awaited := awaited w ++ [kind controller_cls] |}).
Proof.
  intros H. unfold _run_controller. by rewrite H.
Qed.

(** Every awaited call is logged, whatever its outcome. *)
Lemma run_controller_awaited {K A}
    (controller_cls : Controller Request Downstream K A) (kwargs : K)
    (w : World Request Downstream) :
  awaited (snd (run_controller controller_cls kwargs w))
    = awaited w ++ [kind controller_cls].
Proof.
  unfold _run_controller.
  destruct (process_request controller_cls _ kwargs _) as [[t [p|e]] d];
    reflexivity.
Qed.

(** A first call that returns has awaited the detail controller once and
    memoized what it returns. *)
Lemma load_details_miss (locale : member) (self : HeroNode.t Hero)
    (w : World Request Downstream) (hero : Hero)
    (self' : HeroNode.t Hero) (w' : World Request Downstream) :
  dict_get (HeroNode._details_cache self) (m_value locale) = None ->
  load_details locale (self, w) = (Ok hero, (self', w')) ->
  awaited w' = awaited w ++ [GetHero] /\
  dict_get (HeroNode._details_cache self') (m_value locale) = Some hero.
Proof.
  intros Hmiss. unfold _load_details. rewrite Hmiss.
  unfold bind, lift, with_node, store_details, ret.
  destruct (_enum_to_hero_key HeroKey (HeroNode.key self)) as [hk|];
    [|discriminate].
  destruct (_convert_locale Locale locale) as [loc|]; [|discriminate].
  pose proof (run_controller_awaited
                (GetHeroController get_hero_process_request) (hk, loc) w) as Hlog.
  destruct (run_controller (GetHeroController get_hero_process_request) (hk, loc) w)
    as [[payload|] w1]; [|discriminate].
  destruct (Hero_model_validate payload) as [h|]; [|discriminate].
  intros [= <- <- <-]. split; [exact Hlog|].
  simpl. apply dict_get_set_eq, py_eq_refl.
Qed.

(** C2. A call of the details loader for a locale that the node has
    memoized returns the memoized entity and leaves node and world as
    they were: no controller call is awaited and the context is not
    touched.  So when a first call on a node without an entry for the
    locale has returned an entity, having awaited the detail controller
    once, a second call with the same locale on the same node returns
    that entity and awaits nothing: one detail-controller call for the
    two calls. *)
Theorem load_details_memoized (locale : member) (self : HeroNode.t Hero)
    (w : World Request Downstream) :
  (forall cached,
     dict_get (HeroNode._details_cache self) (m_value locale) = Some cached ->
     load_details locale (self, w) = (Ok cached, (self, w))) /\
  (forall hero self' w',
     dict_get (HeroNode._details_cache self) (m_value locale) = None ->
     load_details locale (self, w) = (Ok hero, (self', w')) ->
     load_details locale (self', w') = (Ok hero, (self', w')) /\
     awaited (snd (snd (load_details locale (self', w'))))
       = awaited w ++ [GetHero]).
Proof.
  split.
  - intros cached Hhit. unfold _load_details. by rewrite Hhit.
  - intros hero self' w' Hmiss Hfirst.
    destruct (load_details_miss _ _ _ _ _ _ Hmiss Hfirst) as [Hlog Hmemo].
    assert (Hsecond : load_details locale (self', w') = (Ok hero, (self', w'))).
    { unfold _load_details. by rewrite Hmemo. }
    split; [exact Hsecond|]. by rewrite Hsecond.
Qed.

(** Wrapping a Short Entity whose key and role are members of the
    domain enums cannot fail. *)
Lemma make_hero_node_typed (hero_short : HeroShort.t) :
  isinstance (VEnum (HeroShort.key hero_short)) HeroKey = true ->
  isinstance (VEnum (HeroShort.role hero_short)) Role = true ->
  make_hero_node hero_short = Ok (wrap_node hero_short).
Proof.
  intros Hk Hr. unfold _make_hero_node, _hero_key_to_enum, _role_to_enum.
  unfold HeroKeyEnum, RoleEnum, strawberry_enum.
  rewrite (enum_call_instance _ _ _ (instance_of_member _ _ Hk)).
  rewrite (enum_call_instance _ _ _ (instance_of_member _ _ Hr)).
  reflexivity.
Qed.

Lemma rmap_make_hero_node_typed (hs : list HeroShort.t) :
  Forall (fun h => isinstance (VEnum (HeroShort.key h)) HeroKey = true /\
                   isinstance (VEnum (HeroShort.role h)) Role = true) hs ->
  rmap make_hero_node hs = Ok (map wrap_node hs).
Proof.
  induction 1 as [|h hs [Hk Hr] _ IH]; [reflexivity|].
  simpl. by rewrite (make_hero_node_typed h Hk Hr), IH.
Qed.

(** C4. Without a keys argument, or with the empty list, once the list
    controller has returned and its payload has parsed into the Short
    Entities [hs], the field returns the nodes of all of [hs], made in
    downstream order, one per Short Entity; for Short Entities whose
    key and role are members of the domain enums, as the model
    declares, these are exactly [hs] wrapped as nodes. *)
Theorem heroes_without_keys
    (role : option member) (locale : member) (keys : option (list member))
    (w w' : World Request Downstream)
    (role' : option member) (locale' : member)
    (payload : list Raw) (hs : list HeroShort.t)
    (Hkeys : keys = None \/ keys = Some [])
    (Hrole : _convert_role Role role = Ok role')
    (Hlocale : _convert_locale Locale locale = Ok locale')
    (Hcall : run_controller (ListHeroesController list_heroes_process_request)
               (role', locale') w = (Ok payload, w'))
    (Hparse : _parse_models HeroShort_model_validate payload = Ok hs) :
  _filter_by_keys hs [] = hs /\
  query_heroes role locale keys w = (rmap make_hero_node hs, w') /\
  (Forall (fun h => isinstance (VEnum (HeroShort.key h)) HeroKey = true /\
                    isinstance (VEnum (HeroShort.role h)) Role = true) hs ->
   query_heroes role locale keys w = (Ok (map wrap_node hs), w')).
Proof.
  assert (Hq : query_heroes role locale keys w = (rmap make_hero_node hs, w')).
  { unfold heroes, bind, lift. rewrite Hrole, Hlocale, Hcall, Hparse.
    by destruct Hkeys as [-> | ->]. }
  split; [reflexivity|]. split; [exact Hq|].
  intros Htyped. by rewrite Hq, rmap_make_hero_node_typed.
Qed.

(** With keys, the nodes are those of the filtered Short Entities. *)
Lemma heroes_with_keys
    (role : option member) (locale : member) (keys hero_keys : list member)
    (w w' : World Request Downstream)
    (role' : option member) (locale' : member)
    (payload : list Raw) (hs : list HeroShort.t) :
  keys <> [] ->
  _convert_role Role role = Ok role' ->
  _convert_locale Locale locale = Ok locale' ->
  run_controller (ListHeroesController list_heroes_process_request)
    (role', locale') w = (Ok payload, w') ->
  _parse_models HeroShort_model_validate payload = Ok hs ->
  _convert_keys HeroKey keys = Ok hero_keys ->
  query_heroes role locale (Some keys) w
    = (rmap make_hero_node (_filter_by_keys hs hero_keys), w').
Proof.
  intros Hkeys Hrole Hlocale Hcall Hparse Hconv.
  unfold heroes, bind, lift. rewrite Hrole, Hlocale, Hcall, Hparse.
  destruct keys as [|k keys]; [done|]. cbv beta iota. by rewrite Hconv.
Qed.

End SchemaProps.

Lemma run_controller_failure_propagates_witness :
  process_request Sample.FailingController (request (context Sample.world0))
    (Sample.ANA, Sample.ENGLISH_US) (downstream Sample.world0)
    = ({[ Sample.cache_ttl_header := "5" ]},
       Raise (OtherError "ParserBlizzardError"), 1%nat) /\
  _run_controller Sample.cache_ttl_header Sample.FailingController
    (Sample.ANA, Sample.ENGLISH_US) Sample.world0
    = (Raise (OtherError "ParserBlizzardError"),
       {| context := Sample.fresh_context;
          downstream := 1%nat;
          awaited := [GetHero] |}).
Proof.
  assert (H : process_request Sample.FailingController
                (request (context Sample.world0))
                (Sample.ANA, Sample.ENGLISH_US) (downstream Sample.world0)
              = ({[ Sample.cache_ttl_header := "5" ]},
                 Raise (OtherError "ParserBlizzardError"), 1%nat))
    by reflexivity.
  split; [exact H|].
  exact (proj1 (run_controller_failure_propagates Sample.cache_ttl_header
                  Sample.FailingController (Sample.ANA, Sample.ENGLISH_US)
                  Sample.world0 _ _ _ H)).
Defined.

Lemma load_details_memoized_witness :
  let load := _load_details Sample.cache_ttl_header Sample.Locale Sample.HeroKey
                Sample.Hero_model_validate Sample.get_hero_process_request
                Sample.ENGLISH_US in
  let first := load (Sample.ana_node, Sample.world0) in
  dict_get (HeroNode._details_cache Sample.ana_node) (m_value Sample.ENGLISH_US)
    = None /\
  fst first = Ok "ANA" /\
  load (snd first) = (Ok "ANA", snd first) /\
  awaited (snd (snd (load (snd first)))) = [GetHero].
Proof.
  intros load first.
  assert (Hmiss : dict_get (HeroNode._details_cache Sample.ana_node)
                    (m_value Sample.ENGLISH_US) = None) by reflexivity.
  assert (Hfirst : load (Sample.ana_node, Sample.world0)
                   = (Ok "ANA", (fst (snd first), snd (snd first))))
    by (vm_compute; reflexivity).
  destruct (load_details_memoized Sample.cache_ttl_header Sample.Locale
              Sample.HeroKey Sample.Hero_model_validate
              Sample.get_hero_process_request Sample.ENGLISH_US
              Sample.ana_node Sample.world0) as [_ Htwice].
  destruct (Htwice "ANA" (fst (snd first)) (snd (snd first)) Hmiss Hfirst)
    as [Hsecond Hlog].
  split; [exact Hmiss|]. split; [vm_compute; reflexivity|].
  replace (snd first) with (fst (snd first), snd (snd first))
    by (by destruct (snd first)).
  split; [exact Hsecond | exact Hlog].
Defined.

Lemma heroes_without_keys_witness :
  heroes (Hero:=string) Sample.cache_ttl_header Sample.Role Sample.Locale
    Sample.HeroKey Sample.HeroShort_model_validate
    Sample.list_heroes_process_request None Sample.ENGLISH_US None Sample.world0
  = (Ok [wrap_node Sample.ana; wrap_node Sample.sojourn],
     snd (_run_controller Sample.cache_ttl_header
            (ListHeroesController Sample.list_heroes_process_request)
            (None, Sample.ENGLISH_US) Sample.world0)).
Proof.
  refine (proj2 (proj2 (heroes_without_keys (Hero:=string)
            Sample.cache_ttl_header Sample.Role Sample.Locale Sample.HeroKey
            Sample.HeroShort_model_validate Sample.list_heroes_process_request
            None Sample.ENGLISH_US None Sample.world0 _ None Sample.ENGLISH_US
            ["ana"; "sojourn"] [Sample.ana; Sample.sojourn]
            (or_introl eq_refl) eq_refl eq_refl eq_refl eq_refl)) _).
  repeat constructor.
Defined.

(** The scenario of the tests: two Short Entities downstream, the query
    asks for [ANA] with details; one node, one call of each controller,
    and the smaller of the two TTLs on the response. *)
Example heroes_filter_by_keys_returns_details :
  let list_fields :=
    heroes (Hero:=string) Sample.cache_ttl_header Sample.Role Sample.Locale
      Sample.HeroKey Sample.HeroShort_model_validate
      Sample.list_heroes_process_request
      None Sample.ENGLISH_US (Some [Sample.ANA]) Sample.world0 in
  fst list_fields = Ok [Sample.ana_node] /\
  let details :=
    _load_details Sample.cache_ttl_header Sample.Locale Sample.HeroKey
      Sample.Hero_model_validate Sample.get_hero_process_request
      Sample.ENGLISH_US (Sample.ana_node, snd list_fields) in
  fst details = Ok "ANA" /\
  awaited (snd (snd details)) = [ListHeroes; GetHero] /\
  cache_ttl (context (snd (snd details))) = Some 3600 /\
  response (context (snd (snd details))) !! Sample.cache_ttl_header = Some "3600".
Proof. vm_compute. repeat split. Qed.

(** A detail call that raises memoizes nothing and merges nothing. *)
Example load_details_failure :
  _load_details Sample.cache_ttl_header Sample.Locale Sample.HeroKey
    Sample.Hero_model_validate Sample.failing_process_request
    Sample.ENGLISH_US (Sample.ana_node, Sample.world0)
  = (Raise (OtherError "ParserBlizzardError"),
     (Sample.ana_node,
      {| context := Sample.fresh_context;
         downstream := 1%nat;
         awaited := [GetHero] |})).
Proof. reflexivity. Qed.

(** * Further properties of the code *)

(** ** [int] and [str] *)

Lemma digit_not_underscore (c : ascii) :
  Py.is_digit c = true -> Py.is_underscore c = false.
Proof.
  unfold Py.is_digit, Py.digit_value, Py.is_underscore.
  destruct (Z.leb_spec 48 (Z.of_N (N_of_ascii c)));
    destruct (Z.leb_spec (Z.of_N (N_of_ascii c)) 57); simpl;
    try discriminate.
  intros _. apply Z.eqb_neq. lia.
Qed.

Lemma digit_not_space (c : ascii) :
  Py.is_digit c = true -> Py.is_space c = false.
Proof.
  unfold Py.is_digit, Py.digit_value, Py.is_space.
  destruct (Z.leb_spec 48 (Z.of_N (N_of_ascii c)));
    destruct (Z.leb_spec (Z.of_N (N_of_ascii c)) 57); simpl;
    try discriminate.
  intros _.
  repeat match goal with
         | |- context [(?a <=? ?b)] => destruct (Z.leb_spec a b)
         | |- context [(?a =? ?b)] => destruct (Z.eqb_spec a b)
         end; simpl; try reflexivity; lia.
Qed.

Lemma digit_value_range (c : ascii) (d : Z) :
  Py.digit_value c = Some d -> 0 <= d <= 9.
Proof.
  unfold Py.digit_value.
  destruct (Z.leb_spec 48 (Z.of_N (N_of_ascii c)));
    destruct (Z.leb_spec (Z.of_N (N_of_ascii c)) 57); simpl;
    try discriminate.
  intros [= <-]. lia.
Qed.

Lemma pretty_N_char_digit (r : N) :
  (r < 10)%N -> Py.digit_value (pretty_N_char r) = Some (Z.of_N r).
Proof.
  intros Hr.
  assert (r = 0 \/ r = 1 \/ r = 2 \/ r = 3 \/ r = 4 \/ r = 5 \/ r = 6 \/
          r = 7 \/ r = 8 \/ r = 9)%N as H by lia.
  repeat (destruct H as [-> | H]; [reflexivity|]). by subst.
Qed.

(** The number of digit characters of a text. *)
Abbreviation digit_count cs :=
  (length (filter (fun c => Py.is_digit c = true) cs)).

(** What [digits] returns lies in the range that the value read so far
    and the number of digit characters left allow. *)
Lemma digits_bound (cs : list ascii) :
  forall (acc : Z) (b : bool) (v : Z),
    0 <= acc ->
    Py.digits cs acc b = Some v ->
    acc * 10 ^ Z.of_nat (digit_count cs) <= v
      < (acc + 1) * 10 ^ Z.of_nat (digit_count cs).
Proof.
  induction cs as [|c cs IH]; intros acc b v Hacc; simpl Py.digits.
  - destruct b; [|discriminate]. intros [= <-]. simpl. lia.
  - destruct (Py.is_underscore c) eqn:U.
    + destruct b; [|discriminate]. intros H.
      rewrite filter_cons_False.
      * by apply (IH acc false).
      * intros D. by rewrite (digit_not_underscore c D) in U.
    + destruct (Py.digit_value c) as [d|] eqn:D; [|discriminate].
      intros H. pose proof (digit_value_range c d D) as Hd.
      rewrite filter_cons_True by (unfold Py.is_digit; by rewrite D).
      apply IH in H; [|lia]. simpl length.
      rewrite Nat2Z.inj_succ, Z.pow_succ_r by lia.
      assert (0 < 10 ^ Z.of_nat (digit_count cs)) by (apply Z.pow_pos_nonneg; lia).
      nia.
Qed.

Lemma unsigned_bound (cs : list ascii) (v : Z) :
  Py.unsigned cs = Some v ->
  0 <= v < 10 ^ Z.of_nat Py.int_max_str_digits.
Proof.
  unfold Py.unsigned.
  destruct (Nat.ltb_spec Py.int_max_str_digits (digit_count cs)) as [|Hle];
    [discriminate|].
  intros H. apply digits_bound in H; [|lia].
  assert (10 ^ Z.of_nat (digit_count cs) <= 10 ^ Z.of_nat Py.int_max_str_digits)
    by (apply Z.pow_le_mono_r; lia).
  lia.
Qed.

(** Every integer that [int] returns is within the digit limit. *)
Lemma int_bound (s : string) (v : Z) :
  Py.int s = Some v -> Z.abs v < 10 ^ Z.of_nat Py.int_max_str_digits.
Proof.
  unfold Py.int.
  assert (Hneg : forall cs, Z.opp <$> Py.unsigned cs = Some v ->
                            Z.abs v < 10 ^ Z.of_nat Py.int_max_str_digits).
  { intros cs H. destruct (Py.unsigned cs) as [u|] eqn:U; [|discriminate].
    injection H as <-. apply unsigned_bound in U. lia. }
  assert (Hpos : forall cs, Py.unsigned cs = Some v ->
                            Z.abs v < 10 ^ Z.of_nat Py.int_max_str_digits).
  { intros cs H. apply unsigned_bound in H. lia. }
  destruct (Py.strip (list_ascii_of_string s)) as [|c cs]; [apply Hpos|].
  destruct c as [[] [] [] [] [] [] [] []];
    first [apply Hpos | apply Hneg].
Qed.

(** The numeral that [str] prints for a natural number, in front of a
    text [s]: digit characters only, at least one for a positive
    number, no more than the size of the number allows, and [digits]
    reads the number back from them. *)
Lemma pretty_N_go_digits (x : N) :
  forall s : string,
  exists ds : list ascii,
    list_ascii_of_string (pretty_N_go x s) = ds ++ list_ascii_of_string s /\
    Forall (fun c => Py.is_digit c = true) ds /\
    ((0 < x)%N -> ds <> [] /\ 10 ^ Z.of_nat (length ds) <= 10 * Z.of_N x) /\
    (forall acc cs,
       Py.digits (ds ++ cs) acc true
       = Py.digits cs (acc * 10 ^ Z.of_nat (length ds) + Z.of_N x) true).
Proof.
  induction (N.lt_wf_0 x) as [x _ IH]; intros s.
  destruct (N.eq_dec x 0%N) as [->|Hx].
  - exists []. rewrite pretty_N_go_0. split; [reflexivity|].
    split; [constructor|]. split; [lia|].
    intros acc cs. simpl. f_equal. lia.
  - assert (0 < x)%N as Hpos by lia.
    rewrite pretty_N_go_step by done.
    set (c := pretty_N_char (x `mod` 10)%N).
    assert (Hc : Py.digit_value c = Some (Z.of_N (x `mod` 10)%N))
      by (apply pretty_N_char_digit, N.mod_lt; lia).
    assert (Hcd : Py.is_digit c = true) by (unfold Py.is_digit; by rewrite Hc).
    destruct (IH (x `div` 10)%N (N.div_lt x 10 Hpos eq_refl) (String c s))
      as (ds & Heq & Hds & Hlen & Hread).
    exists (ds ++ [c]). rewrite Heq. simpl list_ascii_of_string.
    split; [by rewrite <- app_assoc|].
    split; [apply Forall_app; split; [exact Hds | by repeat constructor]|].
    assert (Hdiv : Z.of_N x = 10 * Z.of_N (x `div` 10)%N + Z.of_N (x `mod` 10)%N).
    { rewrite (N.div_mod x 10) at 1 by lia. lia. }
    assert (Hmod : (x `mod` 10 < 10)%N) by (apply N.mod_lt; lia).
    rewrite length_app, Nat2Z.inj_add. simpl length.
    rewrite Z.pow_add_r, Z.pow_1_r by lia.
    split.
    + intros _. split; [by destruct ds|].
      destruct (N.eq_dec (x `div` 10)%N 0%N) as [H0|H0].
      * assert (ds = []) as ->.
        { rewrite H0, pretty_N_go_0 in Heq. simpl in Heq.
          apply (f_equal length) in Heq. rewrite length_app in Heq.
          simpl in Heq. destruct ds; [reflexivity | simpl in Heq; lia]. }
        simpl. lia.
      * destruct Hlen as [_ Hlen]; [lia|].
        pose proof (N2Z.is_nonneg (x `mod` 10)%N) as Hr.
        revert Hdiv Hlen Hr. generalize (Z.of_N x), (Z.of_N (x `div` 10)%N),
          (Z.of_N (x `mod` 10)%N), (10 ^ Z.of_nat (length ds)).
        intros; lia.
    + intros acc cs. rewrite <- app_assoc, Hread. simpl app.
      simpl Py.digits. rewrite (digit_not_underscore c Hcd), Hc.
      f_equal. lia.
Qed.

Lemma lstrip_no_space (c : ascii) (cs : list ascii) :
  Py.is_space c = false -> Py.lstrip (c :: cs) = c :: cs.
Proof. simpl. by intros ->. Qed.

(** A text that neither starts nor ends with a space is left as it is. *)
Lemma strip_no_space (c c' : ascii) (cs : list ascii) :
  Py.is_space c = false -> Py.is_space c' = false ->
  Py.strip (c :: cs ++ [c']) = c :: cs ++ [c'].
Proof.
  intros Hc Hc'. unfold Py.strip. rewrite (lstrip_no_space c _ Hc).
  assert (Hrev : rev (c :: cs ++ [c']) = c' :: rev (c :: cs)).
  { change (c :: cs ++ [c']) with ((c :: cs) ++ [c']). by rewrite rev_app_distr. }
  rewrite Hrev, (lstrip_no_space c' _ Hc'), <- Hrev. apply rev_involutive.
Qed.

Lemma strip_digits (ds : list ascii) :
  Forall (fun c => Py.is_digit c = true) ds -> Py.strip ds = ds.
Proof.
  intros Hds. destruct ds as [|c ds]; [reflexivity|].
  destruct (rev ds) as [|c' rds] eqn:R.
  - apply (f_equal (@rev ascii)) in R. rewrite rev_involutive in R. subst ds.
    apply Forall_cons in Hds as [Hc _]. apply digit_not_space in Hc.
    unfold Py.strip. simpl. rewrite Hc. simpl. by rewrite Hc.
  - apply (f_equal (@rev ascii)) in R. rewrite rev_involutive in R.
    simpl in R. subst ds.
    apply Forall_cons in Hds as [Hc Hds]. apply Forall_app in Hds as [_ Hc'].
    apply Forall_cons in Hc' as [Hc' _].
    apply strip_no_space; by apply digit_not_space.
Qed.

Lemma strip_minus_digits (ds : list ascii) :
  ds <> [] -> Forall (fun c => Py.is_digit c = true) ds ->
  Py.strip ("-"%char :: ds) = "-"%char :: ds.
Proof.
  intros Hne Hds. destruct (rev ds) as [|c' rds] eqn:R.
  - apply (f_equal (@rev ascii)) in R. rewrite rev_involutive in R. by subst ds.
  - apply (f_equal (@rev ascii)) in R. rewrite rev_involutive in R.
    simpl in R. subst ds. apply Forall_app in Hds as [_ Hc'].
    apply Forall_cons in Hc' as [Hc' _].
    apply strip_no_space; [reflexivity | by apply digit_not_space].
Qed.

(** A text of digits has no sign for [int] to take off. *)
Lemma int_of_unsigned_digits (s : string) (c : ascii) (cs : list ascii) :
  Py.strip (list_ascii_of_string s) = c :: cs ->
  Py.is_digit c = true ->
  Py.int s = Py.unsigned (c :: cs).
Proof.
  intros Hs Hc. unfold Py.int. rewrite Hs.
  destruct c as [[] [] [] [] [] [] [] []]; try reflexivity; discriminate.
Qed.

Lemma unsigned_digits (ds : list ascii) (x : N) :
  ds <> [] ->
  Forall (fun c => Py.is_digit c = true) ds ->
  (length ds <= Py.int_max_str_digits)%nat ->
  (forall acc cs,
     Py.digits (ds ++ cs) acc true
     = Py.digits cs (acc * 10 ^ Z.of_nat (length ds) + Z.of_N x) true) ->
  Py.unsigned ds = Some (Z.of_N x).
Proof.
  intros Hne Hds Hlen Hread. unfold Py.unsigned.
  assert (digit_count ds <= length ds)%nat by apply length_filter.
  destruct (Nat.ltb_spec Py.int_max_str_digits (digit_count ds)); [lia|].
  destruct ds as [|c ds]; [done|].
  apply Forall_cons in Hds as [Hc _].
  assert (Hfirst : Py.digits (c :: ds) 0 false = Py.digits (c :: ds) 0 true).
  { simpl. by rewrite (digit_not_underscore c Hc). }
  rewrite Hfirst. specialize (Hread 0 []). rewrite app_nil_r in Hread.
  rewrite Hread. simpl. f_equal; lia.
Qed.

Lemma length_within_limit (k : nat) (x : Z) :
  10 ^ Z.of_nat k <= 10 * x ->
  x < 10 ^ Z.of_nat Py.int_max_str_digits ->
  (k <= Py.int_max_str_digits)%nat.
Proof.
  intros Hk Hx. apply Nat2Z.inj_le, Z.lt_succ_r.
  apply (Z.pow_lt_mono_r_iff 10); [lia | apply Z.le_le_succ_r, Nat2Z.is_nonneg |].
  rewrite Z.pow_succ_r by apply Nat2Z.is_nonneg.
  revert Hk Hx.
  generalize (10 ^ Z.of_nat k), (10 ^ Z.of_nat Py.int_max_str_digits).
  intros; lia.
Qed.

(** What [str] prints, [int] reads back, for every integer within the
    digit limit. *)
Lemma int_str (n : Z) :
  Z.abs n < 10 ^ Z.of_nat Py.int_max_str_digits ->
  Py.int (Py.str n) = Some n.
Proof.
  intros Hn. destruct n as [|p|p]; [reflexivity| |].
  - unfold Py.str, pretty, pretty_Z, pretty, pretty_positive, pretty, pretty_N.
    rewrite decide_False by done.
    destruct (pretty_N_go_digits (N.pos p) "") as (ds & Heq & Hds & Hlen & Hread).
    simpl list_ascii_of_string in Heq. rewrite app_nil_r in Heq.
    destruct Hlen as [Hne Hlen]; [lia|].
    assert (length ds <= Py.int_max_str_digits)%nat
      by (by apply (length_within_limit _ (Z.pos p))).
    destruct ds as [|c ds'] eqn:E; [done|].
    rewrite (int_of_unsigned_digits _ c ds').
    + rewrite (unsigned_digits (c :: ds') (N.pos p)); try done.
    + by rewrite Heq, strip_digits.
    + by apply Forall_cons in Hds as [Hc _].
  - unfold Py.str, pretty, pretty_Z, pretty, pretty_positive, pretty, pretty_N.
    rewrite decide_False by done.
    destruct (pretty_N_go_digits (N.pos p) "") as (ds & Heq & Hds & Hlen & Hread).
    simpl list_ascii_of_string in Heq. rewrite app_nil_r in Heq.
    destruct Hlen as [Hne Hlen]; [lia|].
    assert (length ds <= Py.int_max_str_digits)%nat
      by (by apply (length_within_limit _ (Z.pos p))).
    unfold Py.int.
    change (list_ascii_of_string ("-" +:+ pretty_N_go (N.pos p) ""))
      with ("-"%char :: list_ascii_of_string (pretty_N_go (N.pos p) "")).
    rewrite Heq.
    rewrite strip_minus_digits by done.
    by rewrite (unsigned_digits ds (N.pos p)).
Qed.

(** ** More on the request context *)

Lemma list_min_Permutation (l l' : list Z) :
  l ≡ₚ l' -> list_min l = list_min l'.
Proof.
  intros Hp. destruct (list_min l) as [m|] eqn:E.
  - symmetry. apply list_min_spec. apply list_min_spec in E as [Hin Hall].
    split; [by rewrite <- Hp | by rewrite <- Hp].
  - apply list_min_None in E. subst l. apply Permutation_nil_l in Hp.
    by subst l'.
Qed.

Lemma parsed_value_source (hs : list (option string)) (v : Z) :
  v ∈ parsed_values hs -> exists h, Some h ∈ hs /\ Py.int h = Some v.
Proof.
  unfold parsed_values. intros (o & Ho & Hv)%list_elem_of_omap.
  destruct o as [h|]; [|discriminate]. by exists h.
Qed.

(** Stored value and header after a call sequence on a fresh context. *)
Lemma fresh_merge_seq_outcome {Request : Type}
    (cache_ttl_header : string)
    (req : Request) (resp : gmap string string) (hs : list (option string)) :
  let ctx := merge_all cache_ttl_header (build_context req resp) hs in
  match list_min (parsed_values hs) with
  | None => cache_ttl ctx = None /\ response ctx = resp
  | Some m =>
      m ∈ parsed_values hs /\
      cache_ttl ctx = Some m /\
      response ctx !! cache_ttl_header = Some (Py.str m)
  end.
Proof.
  intros ctx. subst ctx.
  pose proof (merge_seq_spec cache_ttl_header hs (build_context req resp)) as H.
  destruct (list_min (parsed_values hs)) as [m|] eqn:E.
  - simpl in H. rewrite H. simpl.
    split; [by apply list_min_spec|]. split; [reflexivity|].
    apply lookup_insert_eq.
  - by rewrite H.
Qed.

Section MoreContextProps.

Context {Request : Type}.
Variable cache_ttl_header : string.

Abbreviation merge' := (merge_cache_ttl (Request:=Request) cache_ttl_header).
Abbreviation merge_seq' := (merge_all (Request:=Request) cache_ttl_header).
Abbreviation in_step := (header_in_step (Request:=Request) cache_ttl_header).

(** X1. What a call sequence does to a context depends on the header values
    only as a collection: the calls may come in any order. *)
Theorem merge_order_irrelevant
    (ctx : GraphQLContext Request) (hs hs' : list (option string))
    (Hperm : hs ≡ₚ hs') :
  merge_seq' ctx hs = merge_seq' ctx hs'.
Proof.
  pose proof (merge_seq_spec cache_ttl_header hs ctx) as H.
  pose proof (merge_seq_spec cache_ttl_header hs' ctx) as H'.
  assert (E : list_min (parsed_values hs) = list_min (parsed_values hs')).
  { apply list_min_Permutation. unfold parsed_values. by rewrite Hperm. }
  rewrite <- E in H'.
  destruct (list_min (parsed_values hs)) as [m|]; [|congruence].
  destruct (match cache_ttl ctx with None => true | Some c => m <? c end);
    congruence.
Qed.

(** X2. Seeing the same header value a second time changes nothing. *)
Theorem merge_idempotent (ctx : GraphQLContext Request) (h : option string) :
  merge' (merge' ctx h) h = merge' ctx h.
Proof.
  destruct (h ≫= Py.int) as [v|] eqn:Hh.
  - rewrite (merge_parsed _ ctx h v Hh).
    destruct (cache_ttl ctx) as [c|] eqn:Hc.
    + destruct (Z.ltb_spec v c).
      * rewrite (merge_parsed _ _ h v Hh). simpl. by rewrite Z.ltb_irrefl.
      * rewrite (merge_parsed _ _ h v Hh), Hc.
        destruct (Z.ltb_spec v c); [lia | reflexivity].
    + rewrite (merge_parsed _ _ h v Hh). simpl. by rewrite Z.ltb_irrefl.
  - by rewrite !(merge_unparsed _ _ h Hh).
Qed.

(** X3. A call sequence never touches the request handle, and of the
    response headers it writes none but the configured one. *)
Theorem merge_touches_one_header
    (ctx : GraphQLContext Request) (hs : list (option string))
    (name : string) (Hother : name <> cache_ttl_header) :
  request (merge_seq' ctx hs) = request ctx /\
  response (merge_seq' ctx hs) !! name = response ctx !! name.
Proof.
  pose proof (merge_seq_spec cache_ttl_header hs ctx) as H.
  destruct (list_min (parsed_values hs)) as [m|]; [|by rewrite H].
  destruct (match cache_ttl ctx with None => true | Some c => m <? c end);
    rewrite H; [|done].
  simpl. split; [reflexivity|]. by rewrite lookup_insert_ne.
Qed.

Lemma merge_in_step (ctx : GraphQLContext Request) (h : option string) :
  in_step ctx -> in_step (merge' ctx h).
Proof.
  intros Hctx. destruct (h ≫= Py.int) as [v|] eqn:Hh.
  - rewrite (merge_parsed _ ctx h v Hh).
    destruct (match cache_ttl ctx with None => true | Some c => v <? c end);
      [|exact Hctx].
    unfold header_in_step. simpl. apply lookup_insert_eq.
  - by rewrite (merge_unparsed _ _ h Hh).
Qed.

(** X4. The response header and the stored TTL stay in step: when the
    header shows the stored value before a call sequence (as on a fresh
    context whose response has no such header), it shows the stored
    value after it. *)
Theorem merge_keeps_header_in_step
    (ctx : GraphQLContext Request) (hs : list (option string))
    (Hctx : in_step ctx) :
  in_step (merge_seq' ctx hs).
Proof.
  revert ctx Hctx. induction hs as [|h hs IH]; intros ctx Hctx; [exact Hctx|].
  apply IH. by apply merge_in_step.
Qed.

(** X5. After any call sequence on a fresh context, the header on the
    response is a text that [int] reads back as the stored TTL, so
    merging the response's own header into the context again changes
    nothing; while nothing is stored the response is as it was. *)
Theorem written_header_parses_back
    (req : Request) (resp : gmap string string) (hs : list (option string)) :
  let ctx := merge_seq' (build_context req resp) hs in
  match cache_ttl ctx with
  | Some c =>
      response ctx !! cache_ttl_header ≫= Py.int = Some c /\
      merge' ctx (response ctx !! cache_ttl_header) = ctx
  | None => response ctx = resp
  end.
Proof.
  intros ctx. subst ctx.
  pose proof (fresh_merge_seq_outcome cache_ttl_header req resp hs) as H.
  destruct (list_min (parsed_values hs)) as [m|].
  - destruct H as (Hin & Hc & Hl). rewrite Hc.
    destruct (parsed_value_source hs m Hin) as (h & _ & Hh).
    assert (Hback : Py.int (Py.str m) = Some m)
      by (apply int_str; by apply (int_bound h)).
    assert (Hl' : response (merge_seq' (build_context req resp) hs)
                    !! cache_ttl_header ≫= Py.int = Some m)
      by (by rewrite Hl).
    split; [exact Hl'|].
    rewrite (merge_parsed _ _ _ m Hl'), Hc. by rewrite Z.ltb_irrefl.
  - destruct H as [Hc Hr]. by rewrite Hc.
Qed.

End MoreContextProps.

(** ** List comprehensions that may raise *)

Lemma rmap_Ok {A B} (f : A -> result B) (l : list A) (l' : list B) :
  rmap f l = Ok l' <-> Forall2 (fun x y => f x = Ok y) l l'.
Proof.
  revert l'. induction l as [|x l IH]; intros l'; simpl.
  - split; [intros [= <-]; constructor | by inversion 1].
  - destruct (f x) as [y|e] eqn:Fx; simpl.
    + destruct (rmap f l) as [ys|e] eqn:R; simpl.
      * split.
        -- intros [= <-]. constructor; [exact Fx | by apply IH].
        -- inversion 1 as [|? y' ? ys' Hy Hys]; subst.
           rewrite Fx in Hy. injection Hy as <-.
           apply IH in Hys. by injection Hys as <-.
      * split; [discriminate|].
        inversion 1 as [|? y' ? ys' Hy Hys]; subst.
        apply IH in Hys. discriminate.
    + split; [discriminate|].
      inversion 1 as [|? y' ? ys' Hy Hys]; subst. congruence.
Qed.

(** The exception of a comprehension is the one of its first failing
    element. *)
Lemma rmap_Raise {A B} (f : A -> result B) (l : list A) (e : exn) :
  rmap f l = Raise e ->
  exists pre x post,
    l = pre ++ x :: post /\
    Forall (fun y => exists z, f y = Ok z) pre /\
    f x = Raise e.
Proof.
  induction l as [|x l IH]; simpl; [discriminate|].
  destruct (f x) as [y|e'] eqn:Fx; simpl.
  - destruct (rmap f l) as [ys|e'] eqn:R; simpl; [discriminate|].
    intros [= ->]. destruct (IH eq_refl) as (pre & x' & post & -> & Hpre & Hx').
    exists (x :: pre), x', post. split; [reflexivity|].
    split; [constructor; eauto | exact Hx'].
  - intros [= ->]. exists [], x, l. split; [reflexivity|].
    split; [constructor | exact Fx].
Qed.

Section ParseProps.

Context {Raw : Type}.
Variable HeroShort_model_validate : Raw -> result HeroShort.t.

(** X6. [_parse_models] returns the validated items one for one and in
    order, or else raises what the validation of the first invalid item
    raises; an empty payload gives an empty list. *)
Theorem parse_models_outcome (data : list Raw) :
  match _parse_models HeroShort_model_validate data with
  | Ok hero_shorts =>
      Forall2 (fun item hero => HeroShort_model_validate item = Ok hero)
              data hero_shorts /\
      length hero_shorts = length data
  | Raise e =>
      exists pre item post,
        data = pre ++ item :: post /\
        Forall (fun i => exists hero, HeroShort_model_validate i = Ok hero) pre /\
        HeroShort_model_validate item = Raise e
  end.
Proof.
  unfold _parse_models.
  destruct (rmap HeroShort_model_validate data) as [hs|e] eqn:R.
  - apply rmap_Ok in R. split; [exact R|]. symmetry. by eapply Forall2_length.
  - by apply rmap_Raise.
Qed.

End ParseProps.

(** ** More on the enum crosswalk *)

Lemma known_enum_call (E : EnumClass) (v : value) :
  known E v = true -> exists m, enum_call E v = Ok m.
Proof.
  unfold known. intros [Hi|Hv]%orb_prop; [|by apply enum_call_has_value].
  unfold isinstance in Hi. destruct (instance_of v E) as [m|] eqn:I; [|done].
  exists m. by apply enum_call_instance.
Qed.

(** [E(v)] returns an instance of [E], when the listed members are. *)
Lemma enum_call_tagged (E : EnumClass) (v : value) (m : member) :
  members_tagged E -> enum_call E v = Ok m -> isinstance (VEnum m) E = true.
Proof.
  intros Htag. unfold enum_call.
  destruct (instance_of v E) as [m'|] eqn:I.
  - intros [= <-]. apply instance_of_Some in I as [_ Hc].
    unfold isinstance. simpl. by rewrite bool_decide_true.
  - destruct (find _ _) as [m'|] eqn:F; [|discriminate]. intros [= <-].
    apply find_some in F as [Hin _].
    unfold members_tagged in Htag. rewrite Forall_forall in Htag.
    specialize (Htag m' (proj2 (list_elem_of_In _ _) Hin)).
    unfold isinstance. simpl. by rewrite bool_decide_true.
Qed.

(** The value lookup does not tell equal values apart. *)
Lemma enum_call_by_value (E : EnumClass) (v v' : value) :
  isinstance v E = false -> isinstance v' E = false ->
  py_eq v v' = true -> enum_call E v = enum_call E v'.
Proof.
  intros Hi Hi' Hv. unfold enum_call.
  rewrite (instance_of_isinstance _ _ Hi), (instance_of_isinstance _ _ Hi').
  assert (Hfind : forall l,
            find (fun m => py_eq (m_value m) v) l
            = find (fun m => py_eq (m_value m) v') l).
  { induction l as [|m l IH]; [reflexivity|]. simpl.
    rewrite (py_eq_sym (m_value m) v), (py_eq_sym (m_value m) v').
    by rewrite (py_eq_congr v v' (m_value m) Hv), IH. }
  by rewrite Hfind.
Qed.

Section MoreCrosswalkProps.

Variables Role Locale HeroKey : EnumClass.

(** X8. A conversion that returns, returns an instance of its target enum:
    of the domain enum for the three conversions into the domain, of
    the wire enum for the two conversions into the wire. *)
Theorem conversions_land_in_target
    (HRole : members_tagged Role) (HLocale : members_tagged Locale)
    (HHeroKey : members_tagged HeroKey) :
  (forall x d, _convert_role Role (Some x) = Ok (Some d) ->
     isinstance (VEnum d) Role = true) /\
  (forall x d, _convert_locale Locale x = Ok d ->
     isinstance (VEnum d) Locale = true) /\
  (forall x d, _enum_to_hero_key HeroKey x = Ok d ->
     isinstance (VEnum d) HeroKey = true) /\
  (forall y w, _role_to_enum Role y = Ok w ->
     isinstance (VEnum w) (RoleEnum Role) = true) /\
  (forall y w, _hero_key_to_enum HeroKey y = Ok w ->
     isinstance (VEnum w) (HeroKeyEnum HeroKey) = true).
Proof.
  assert (Hdom : forall E v d,
            members_tagged E ->
            match instance_of v E with
            | Some m => Ok m
            | None => enum_call E v
            end = Ok d ->
            isinstance (VEnum d) E = true).
  { intros E v d Htag. destruct (instance_of v E) as [m|] eqn:I.
    - intros [= <-]. apply instance_of_Some in I as [_ Hc].
      unfold isinstance. simpl. by rewrite bool_decide_true.
    - by apply enum_call_tagged. }
  assert (Hwire : forall E y w,
            members_tagged E ->
            match enum_call E (VEnum y) with
            | Ok m => Ok m
            | Raise ValueError => enum_call E (m_value y)
            | Raise e => Raise e
            end = Ok w ->
            isinstance (VEnum w) E = true).
  { intros E y w Htag. destruct (enum_call E (VEnum y)) as [m|e] eqn:C.
    - intros [= <-]. by apply (enum_call_tagged E (VEnum y)).
    - rewrite (enum_call_raises _ _ _ C). by apply enum_call_tagged. }
  split; [|split; [|split; [|split]]].
  - intros x d. unfold _convert_role.
    destruct (instance_of (m_value x) Role) as [m|] eqn:I.
    + intros [= <-]. apply (Hdom Role (m_value x)); [done|]. by rewrite I.
    + destruct (enum_call Role (m_value x)) as [m|] eqn:C; [|discriminate].
      simpl. intros [= <-]. by apply (enum_call_tagged Role (m_value x)).
  - intros x d. by apply Hdom.
  - intros x d. by apply Hdom.
  - intros y w. by apply Hwire.
  - intros y w. by apply Hwire.
Qed.

(** X9. The conversions into the domain go by the value of the wire member,
    not by which member it is: two wire members with equal values,
    neither value being a domain member already, convert alike. *)
Theorem to_domain_by_value (x x' : member)
    (Hv : py_eq (m_value x) (m_value x') = true) :
  (isinstance (m_value x) Role = false ->
   isinstance (m_value x') Role = false ->
   _convert_role Role (Some x) = _convert_role Role (Some x')) /\
  (isinstance (m_value x) Locale = false ->
   isinstance (m_value x') Locale = false ->
   _convert_locale Locale x = _convert_locale Locale x') /\
  (isinstance (m_value x) HeroKey = false ->
   isinstance (m_value x') HeroKey = false ->
   _enum_to_hero_key HeroKey x = _enum_to_hero_key HeroKey x').
Proof.
  split; [|split]; intros Hi Hi';
    unfold _convert_role, _convert_locale, _enum_to_hero_key;
    rewrite (instance_of_isinstance _ _ Hi), (instance_of_isinstance _ _ Hi');
    by rewrite (enum_call_by_value _ _ _ Hi Hi' Hv).
Qed.

(** A conversion into the domain raises nothing but [ValueError], and
    only for a value the enum does not know. *)
Lemma enum_to_hero_key_raises (x : member) (e : exn) :
  _enum_to_hero_key HeroKey x = Raise e ->
  e = ValueError /\ known HeroKey (m_value x) = false.
Proof.
  unfold _enum_to_hero_key.
  destruct (instance_of (m_value x) HeroKey) as [m|] eqn:I; [discriminate|].
  intros C. split; [by apply (enum_call_raises _ _ _ C)|].
  destruct (known HeroKey (m_value x)) eqn:K; [|reflexivity].
  destruct (known_enum_call _ _ K) as [m Hm]. congruence.
Qed.

Lemma convert_keys_unknown (keys : list member) :
  Exists (fun key => known HeroKey (m_value key) = false) keys ->
  _convert_keys HeroKey keys = Raise ValueError.
Proof.
  intros Hex. unfold _convert_keys.
  destruct (rmap (_enum_to_hero_key HeroKey) keys) as [ks|e] eqn:R.
  - exfalso. apply rmap_Ok in R.
    apply Exists_exists in Hex as (key & Hin & Hkey).
    destruct (proj1 (list_elem_of_lookup _ _) Hin) as [i Hi].
    destruct (Forall2_lookup_l _ _ _ _ _ R Hi) as (hk & _ & Hconv).
    unfold _enum_to_hero_key in Hconv.
    rewrite (enum_call_unknown _ _ Hkey) in Hconv.
    apply orb_false_elim in Hkey as [Hinst _].
    by rewrite (instance_of_isinstance _ _ Hinst) in Hconv.
  - apply rmap_Raise in R as (pre & key & post & _ & _ & Hkey).
    by apply enum_to_hero_key_raises in Hkey as [-> _].
Qed.

(** X7. [_convert_keys] converts the keys one for one and in order, or else
    raises [ValueError] because some key has a value that [HeroKey]
    does not know; no keys give no keys. *)
Theorem convert_keys_outcome (keys : list member) :
  match _convert_keys HeroKey keys with
  | Ok hero_keys =>
      Forall2 (fun key hero_key => _enum_to_hero_key HeroKey key = Ok hero_key)
              keys hero_keys /\
      length hero_keys = length keys
  | Raise e =>
      e = ValueError /\
      exists pre key post,
        keys = pre ++ key :: post /\
        Forall (fun k => known HeroKey (m_value k) = true) pre /\
        known HeroKey (m_value key) = false
  end.
Proof.
  unfold _convert_keys.
  destruct (rmap (_enum_to_hero_key HeroKey) keys) as [ks|e] eqn:R.
  - apply rmap_Ok in R. split; [exact R|]. symmetry. by eapply Forall2_length.
  - apply rmap_Raise in R as (pre & key & post & -> & Hpre & Hkey).
    apply enum_to_hero_key_raises in Hkey as [-> Hk].
    split; [reflexivity|]. exists pre, key, post.
    split; [reflexivity|]. split; [|exact Hk].
    eapply Forall_impl; [exact Hpre|]. intros k [d Hd]. simpl in *.
    destruct (known HeroKey (m_value k)) eqn:K; [reflexivity|].
    unfold _enum_to_hero_key in Hd.
    rewrite (enum_call_unknown _ _ K) in Hd.
    apply orb_false_elim in K as [Hi _].
    by rewrite (instance_of_isinstance _ _ Hi) in Hd.
Qed.

End MoreCrosswalkProps.

(** ** More on the key filter *)

Lemma omap_length_le {A B} (f : A -> option B) (l : list A) :
  (length (omap f l) <= length l)%nat.
Proof.
  induction l as [|x l IH]; [reflexivity|].
  change (omap f (x :: l))
    with (match f x with Some y => y :: omap f l | None => omap f l end).
  destruct (f x); simpl length; lia.
Qed.

Lemma omap_cons_Some {A B} (f : A -> option B) (x : A) (y : B) (l : list A) :
  f x = Some y -> omap f (x :: l) = y :: omap f l.
Proof.
  intros H.
  change (omap f (x :: l))
    with (match f x with Some y => y :: omap f l | None => omap f l end).
  by rewrite H.
Qed.

Lemma filter_by_keys_elem (hs : list HeroShort.t) (keys : list member)
    (h : HeroShort.t) :
  keys <> [] ->
  h ∈ _filter_by_keys hs keys <->
  exists key, key ∈ keys /\ dict_get (by_key_of hs) (VEnum key) = Some h.
Proof.
  intros Hkeys. rewrite filter_by_keys_omap by done.
  apply list_elem_of_omap.
Qed.

(** X10. The key filter never makes up a record: whatever it returns is in
    the downstream list.  With keys given it returns at most one record
    per key, each with one of the keys asked for. *)
Theorem filter_by_keys_sound (hs : list HeroShort.t) (keys : list member) :
  (forall h, h ∈ _filter_by_keys hs keys -> h ∈ hs) /\
  (keys <> [] ->
   length (_filter_by_keys hs keys) <= length keys /\
   forall h, h ∈ _filter_by_keys hs keys ->
     exists key, key ∈ keys /\ has_key key h = true)%nat.
Proof.
  split.
  - intros h Hh. destruct keys as [|k keys]; [exact Hh|].
    apply filter_by_keys_elem in Hh as (key & _ & Hget); [|done].
    pose proof (by_key_get_cases hs key) as Hc. rewrite Hget in Hc.
    by destruct Hc.
  - intros Hkeys. split.
    + rewrite filter_by_keys_omap by done. apply omap_length_le.
    + intros h (key & Hkey & Hget)%filter_by_keys_elem; [|done].
      exists key. split; [exact Hkey|].
      pose proof (by_key_get_cases hs key) as Hc. rewrite Hget in Hc.
      by destruct Hc.
Qed.

(** X11. Keys none of which the downstream list has give the empty list,
    whereas no keys at all give the whole list. *)
Theorem filter_by_keys_nothing_found
    (hs : list HeroShort.t) (keys : list member)
    (Hkeys : keys <> [])
    (Hmissing : Forall (fun key => Forall (fun h => has_key key h = false) hs) keys) :
  _filter_by_keys hs keys = [] /\ _filter_by_keys hs [] = hs.
Proof.
  split; [|reflexivity].
  rewrite filter_by_keys_omap by done. clear Hkeys.
  induction Hmissing as [|key keys Hkey _ IH]; [reflexivity|].
  simpl. pose proof (by_key_get_cases hs key) as Hc.
  destruct (dict_get (by_key_of hs) (VEnum key)) as [h|]; [|exact IH].
  destruct Hc as [Hin Hk]. rewrite Forall_forall in Hkey.
  by rewrite (Hkey h Hin) in Hk.
Qed.

(** X12. Filtering by two lists of keys one after the other is filtering by
    each and putting the results together. *)
Theorem filter_by_keys_app
    (hs : list HeroShort.t) (keys1 keys2 : list member)
    (H1 : keys1 <> []) (H2 : keys2 <> []) :
  _filter_by_keys hs (keys1 ++ keys2)
  = _filter_by_keys hs keys1 ++ _filter_by_keys hs keys2.
Proof.
  rewrite !filter_by_keys_omap; [apply omap_app|done|done|].
  by destruct keys1.
Qed.

Lemma by_key_get_own (hs : list HeroShort.t) (h : HeroShort.t) :
  distinct_keys hs -> h ∈ hs ->
  dict_get (by_key_of hs) (VEnum (HeroShort.key h)) = Some h.
Proof.
  intros Hd Hh. pose proof (by_key_get_cases hs (HeroShort.key h)) as Hc.
  destruct (dict_get (by_key_of hs) (VEnum (HeroShort.key h))) as [h'|].
  - destruct Hc as [Hin Hk]. f_equal. symmetry. by apply Hd.
  - rewrite Forall_forall in Hc. specialize (Hc h Hh).
    unfold has_key in Hc. by rewrite py_eq_refl in Hc.
Qed.

(** X13. When no two different downstream records share a key, asking for
    the keys of some of the records returns just these records, in the
    order asked; asking for the keys of all of them returns the whole
    list. *)
Theorem filter_by_own_keys (hs wanted : list HeroShort.t)
    (Hdistinct : distinct_keys hs)
    (Hwanted : Forall (fun h => h ∈ hs) wanted) :
  (wanted <> [] ->
   _filter_by_keys hs (map HeroShort.key wanted) = wanted) /\
  _filter_by_keys hs (map HeroShort.key hs) = hs.
Proof.
  assert (Hsub : forall l, Forall (fun h => h ∈ hs) l ->
            omap (fun key => dict_get (by_key_of hs) (VEnum key))
                 (map HeroShort.key l) = l).
  { induction 1 as [|h l Hh _ IH]; [reflexivity|].
    change (map HeroShort.key (h :: l))
      with (HeroShort.key h :: map HeroShort.key l).
    by rewrite (omap_cons_Some
                  (fun key => dict_get (by_key_of hs) (VEnum key))
                  (HeroShort.key h) h _ (by_key_get_own hs h Hdistinct Hh)), IH. }
  split.
  - intros Hne. rewrite filter_by_keys_omap; [by apply Hsub|].
    by destruct wanted.
  - destruct hs as [|h hs']; [reflexivity|].
    rewrite filter_by_keys_omap by done. apply Hsub.
    apply Forall_forall. auto.
Qed.

(** ** More on the controller bridge, the entity node and the query root *)

Section MoreSchemaProps.

Context {Request Downstream Raw Hero HeroDetailsType : Type}.
Variable cache_ttl_header : string.
Variables Role Locale HeroKey : EnumClass.
Variable Hero_model_validate : Raw -> result Hero.
Variable HeroShort_model_validate : Raw -> result HeroShort.t.
Variable list_heroes_process_request :
  Request -> option member * member -> Downstream ->
  (gmap string string * result (list Raw)) * Downstream.
Variable get_hero_process_request :
  Request -> member * member -> Downstream ->
  (gmap string string * result Raw) * Downstream.
Variable from_pydantic : Hero -> HeroDetailsType.

Abbreviation merge1 := (merge_cache_ttl (Request:=Request) cache_ttl_header).
Abbreviation bridge := (_run_controller cache_ttl_header).
Abbreviation loader :=
  (_load_details cache_ttl_header Locale HeroKey Hero_model_validate
     get_hero_process_request).
Abbreviation details_field :=
  (details cache_ttl_header Locale HeroKey Hero_model_validate
     get_hero_process_request from_pydantic).
Abbreviation node_of := (_make_hero_node (Hero:=Hero) Role HeroKey).
Abbreviation heroes_field :=
  (heroes (Hero:=Hero) cache_ttl_header Role Locale HeroKey
     HeroShort_model_validate list_heroes_process_request).
Abbreviation list_controller :=
  (ListHeroesController (Request:=Request) (Downstream:=Downstream)
     list_heroes_process_request).
Abbreviation detail_controller :=
  (GetHeroController (Request:=Request) (Downstream:=Downstream)
     get_hero_process_request).

(** The node [self] with [hero] memoized under [cache_key]. *)
Abbreviation memoized self cache_key hero :=
  {| HeroNode.key := HeroNode.key self;
     HeroNode.name := HeroNode.name self;
     HeroNode.portrait := HeroNode.portrait self;
     HeroNode.role := HeroNode.role self;
     HeroNode._details_cache :=
       dict_set (HeroNode._details_cache self) cache_key hero |}.

(** The bridge changes the context by one merge at most. *)
Lemma run_controller_context {K A}
    (controller_cls : Controller Request Downstream K A) (kwargs : K)
    (w : World Request Downstream) :
  exists h, context (snd (bridge controller_cls kwargs w))
            = merge1 (context w) h.
Proof.
  unfold _run_controller.
  destruct (process_request controller_cls _ kwargs _) as [[t [p|e]] d]; simpl.
  - by exists (t !! cache_ttl_header).
  - by exists None.
Qed.

(** The ways a call of the details loader can go. *)
Lemma load_details_cases (locale : member) (self : HeroNode.t Hero)
    (w : World Request Downstream) :
  (exists cached,
     dict_get (HeroNode._details_cache self) (m_value locale) = Some cached /\
     loader locale (self, w) = (Ok cached, (self, w))) \/
  (dict_get (HeroNode._details_cache self) (m_value locale) = None /\
   exists e,
     loader locale (self, w) = (Raise e, (self, w)) /\
     (_enum_to_hero_key HeroKey (HeroNode.key self) = Raise e \/
      (exists hk, _enum_to_hero_key HeroKey (HeroNode.key self) = Ok hk) /\
      _convert_locale Locale locale = Raise e)) \/
  (dict_get (HeroNode._details_cache self) (m_value locale) = None /\
   exists hero_key locale' outcome w1,
     _enum_to_hero_key HeroKey (HeroNode.key self) = Ok hero_key /\
     _convert_locale Locale locale = Ok locale' /\
     bridge detail_controller (hero_key, locale') w = (outcome, w1) /\
     match outcome with
     | Raise e => loader locale (self, w) = (Raise e, (self, w1))
     | Ok payload =>
         match Hero_model_validate payload with
         | Raise e => loader locale (self, w) = (Raise e, (self, w1))
         | Ok hero =>
             loader locale (self, w)
             = (Ok hero, (memoized self (m_value locale) hero, w1))
         end
     end).
Proof.
  unfold _load_details.
  destruct (dict_get (HeroNode._details_cache self) (m_value locale))
    as [cached|] eqn:Hget.
  { left. by exists cached. }
  right. unfold bind, lift, with_node, store_details, ret.
  destruct (_enum_to_hero_key HeroKey (HeroNode.key self)) as [hk|e] eqn:Hk.
  2:{ left. split; [reflexivity|]. exists e. split; [reflexivity | by left]. }
  destruct (_convert_locale Locale locale) as [loc|e] eqn:Hl.
  2:{ left. split; [reflexivity|]. exists e. split; [reflexivity|].
      right. split; [by exists hk | reflexivity]. }
  right. split; [reflexivity|].
  destruct (bridge detail_controller (hk, loc) w) as [outcome w1] eqn:Hrun.
  exists hk, loc, outcome, w1.
  split; [reflexivity|]. split; [reflexivity|]. split; [exact Hrun|].
  destruct outcome as [payload|e]; [|reflexivity].
  by destruct (Hero_model_validate payload).
Qed.

(** X15. A call of the details loader awaits the detail controller once or
    not at all and no other controller, and all it does to the context
    is one TTL merge at most. *)
Theorem load_details_world_effects (locale : member) (self : HeroNode.t Hero)
    (w : World Request Downstream) :
  let w' := snd (snd (loader locale (self, w))) in
  (awaited w' = awaited w \/ awaited w' = awaited w ++ [GetHero]) /\
  exists h, context w' = merge1 (context w) h.
Proof.
  intros w'. subst w'.
  destruct (load_details_cases locale self w)
    as [(cached & _ & ->) | [(_ & e & -> & _) |
        (_ & hk & loc & outcome & w1 & _ & _ & Hrun & Hout)]].
  - split; [by left | by exists None].
  - split; [by left | by exists None].
  - assert (Hw1 : snd (snd (loader locale (self, w))) = w1).
    { destruct outcome as [payload|e]; [|by rewrite Hout].
      destruct (Hero_model_validate payload); by rewrite Hout. }
    rewrite Hw1.
    pose proof (run_controller_awaited cache_ttl_header detail_controller
                  (hk, loc) w) as Hlog.
    pose proof (run_controller_context detail_controller (hk, loc) w) as Hctx.
    rewrite Hrun in Hlog, Hctx. simpl in Hlog, Hctx.
    split; [by right | exact Hctx].
Qed.

(** X16. What a call of the details loader does to its node: the fields of
    the node stay, the entries memoized under other cache keys stay, a
    returned entity is memoized under the locale, and a call that
    raises leaves the node exactly as it was. *)
Theorem load_details_node_effects (locale : member) (self : HeroNode.t Hero)
    (w : World Request Downstream) :
  let out := loader locale (self, w) in
  let self' := fst (snd out) in
  (HeroNode.key self' = HeroNode.key self /\
   HeroNode.name self' = HeroNode.name self /\
   HeroNode.portrait self' = HeroNode.portrait self /\
   HeroNode.role self' = HeroNode.role self) /\
  (forall k, py_eq (m_value locale) k = false ->
     dict_get (HeroNode._details_cache self') k
     = dict_get (HeroNode._details_cache self) k) /\
  match fst out with
  | Ok hero =>
      dict_get (HeroNode._details_cache self') (m_value locale) = Some hero
  | Raise _ => self' = self
  end.
Proof.
  intros out self'. subst self' out.
  destruct (load_details_cases locale self w)
    as [(cached & Hget & ->) | [(_ & e & -> & _) |
        (_ & hk & loc & outcome & w1 & _ & _ & _ & Hout)]].
  - done.
  - done.
  - destruct outcome as [payload|e]; [|by rewrite Hout].
    destruct (Hero_model_validate payload) as [hero|e]; rewrite Hout; simpl;
      [|done].
    split; [done|]. split.
    + intros k Hk. by apply dict_get_set_ne.
    + apply dict_get_set_eq, py_eq_refl.
Qed.

(** X17. A node whose key, or a locale whose value, the domain enum does not
    know: the loader raises the [ValueError] of the conversion before
    any controller is awaited, and nothing changes. *)
Theorem load_details_unknown_enum (locale : member) (self : HeroNode.t Hero)
    (w : World Request Downstream)
    (Hmiss : dict_get (HeroNode._details_cache self) (m_value locale) = None)
    (Hunknown : known HeroKey (m_value (HeroNode.key self)) = false \/
                known Locale (m_value locale) = false) :
  loader locale (self, w) = (Raise ValueError, (self, w)).
Proof.
  unfold _load_details. rewrite Hmiss. unfold bind, lift.
  assert (Hconv : forall E x, known E (m_value x) = false ->
            match instance_of (m_value x) E with
            | Some v => Ok v
            | None => enum_call E (m_value x)
            end = Raise ValueError).
  { intros E x K. rewrite (enum_call_unknown _ _ K).
    apply orb_false_elim in K as [Hi _].
    by rewrite (instance_of_isinstance _ _ Hi). }
  destruct Hunknown as [K|K].
  - unfold _enum_to_hero_key. by rewrite (Hconv HeroKey _ K).
  - destruct (_enum_to_hero_key HeroKey (HeroNode.key self)) as [hk|e] eqn:Hk.
    + unfold _convert_locale. by rewrite (Hconv Locale _ K).
    + by destruct (enum_to_hero_key_raises HeroKey _ _ Hk) as [-> _].
Qed.

(** X18. A payload that the detail controller returns and the model
    rejects: the loader raises the validation error and memoizes
    nothing, but the TTL of the call has been merged. *)
Theorem load_details_rejected_payload (locale : member) (self : HeroNode.t Hero)
    (w : World Request Downstream)
    (hero_key locale' : member) (temp_response : gmap string string)
    (payload : Raw) (d : Downstream) (e : exn)
    (Hmiss : dict_get (HeroNode._details_cache self) (m_value locale) = None)
    (Hkey : _enum_to_hero_key HeroKey (HeroNode.key self) = Ok hero_key)
    (Hlocale : _convert_locale Locale locale = Ok locale')
    (Hcall : get_hero_process_request (request (context w))
               (hero_key, locale') (downstream w)
             = (temp_response, Ok payload, d))
    (Hreject : Hero_model_validate payload = Raise e) :
  loader locale (self, w) =
    (Raise e,
     (self,
      {| context := merge1 (context w) (temp_response !! cache_ttl_header);
         downstream := d;
         awaited := awaited w ++ [GetHero] |})).
Proof.
  unfold _load_details. rewrite Hmiss.
  unfold bind, lift, with_node. rewrite Hkey, Hlocale.
  rewrite (run_controller_success cache_ttl_header detail_controller
             (hero_key, locale') w temp_response payload d Hcall).
  by rewrite Hreject.
Qed.

(** The [details] resolver is the loader followed by the conversion of
    the entity: same exception, same node and world. *)
Lemma details_load (locale : member) (self : HeroNode.t Hero)
    (w : World Request Downstream) :
  details_field locale (self, w) =
    (match fst (loader locale (self, w)) with
     | Ok hero => Ok (from_pydantic hero)
     | Raise e => Raise e
     end,
     snd (loader locale (self, w))).
Proof.
  unfold details, bind, ret.
  by destruct (loader locale (self, w)) as [[hero|e] s].
Qed.

(** X19. Resolving [details] twice for one locale on one node, the first
    time without an entry for the locale and with a result: the second
    resolution gives the same result, leaves node and world as the
    first left them, and the detail controller has been awaited once
    for the two. *)
Theorem details_resolved_once (locale : member) (self self' : HeroNode.t Hero)
    (w w' : World Request Downstream) (v : HeroDetailsType)
    (Hmiss : dict_get (HeroNode._details_cache self) (m_value locale) = None)
    (Hfirst : details_field locale (self, w) = (Ok v, (self', w'))) :
  details_field locale (self', w') = (Ok v, (self', w')) /\
  awaited w' = awaited w ++ [GetHero].
Proof.
  rewrite details_load in Hfirst.
  destruct (loader locale (self, w)) as [[hero|e] [s1 w1]] eqn:Hload;
    simpl in Hfirst; [|discriminate].
  injection Hfirst as <- <- <-.
  destruct (load_details_miss cache_ttl_header Locale HeroKey
              Hero_model_validate get_hero_process_request
              locale self w hero s1 w1 Hmiss Hload) as [Hlog Hmemo].
  split; [|exact Hlog].
  rewrite details_load. unfold _load_details. by rewrite Hmemo.
Qed.

(** X14. [_make_hero_node] copies name and portrait, starts the node with an
    empty cache and takes key and role from the two conversions into
    the wire enums, the key first; it raises nothing but
    [ValueError]. *)
Theorem make_hero_node_outcome (hero_short : HeroShort.t) :
  match node_of hero_short with
  | Ok node =>
      _hero_key_to_enum HeroKey (HeroShort.key hero_short)
        = Ok (HeroNode.key node) /\
      _role_to_enum Role (HeroShort.role hero_short)
        = Ok (HeroNode.role node) /\
      HeroNode.name node = HeroShort.name hero_short /\
      HeroNode.portrait node = HeroShort.portrait hero_short /\
      HeroNode._details_cache node = []
  | Raise e =>
      e = ValueError /\
      (known (HeroKeyEnum HeroKey) (VEnum (HeroShort.key hero_short)) = false \/
       known (RoleEnum Role) (VEnum (HeroShort.role hero_short)) = false)
  end.
Proof.
  assert (Hwire : forall E y e,
            match enum_call E (VEnum y) with
            | Ok m => Ok m
            | Raise ValueError => enum_call E (m_value y)
            | Raise e => Raise e
            end = Raise e ->
            e = ValueError /\ known E (VEnum y) = false).
  { intros E y e. destruct (enum_call E (VEnum y)) as [m|e'] eqn:C;
      [discriminate|].
    rewrite (enum_call_raises _ _ _ C). intros C'.
    split; [by apply (enum_call_raises _ _ _ C')|].
    destruct (known E (VEnum y)) eqn:K; [|reflexivity].
    destruct (known_enum_call _ _ K) as [m Hm]. congruence. }
  unfold _make_hero_node.
  destruct (_hero_key_to_enum HeroKey (HeroShort.key hero_short))
    as [key|e] eqn:Hk; simpl.
  - destruct (_role_to_enum Role (HeroShort.role hero_short))
      as [role|e] eqn:Hr; simpl; [done|].
    apply Hwire in Hr as [-> Hr]. split; [reflexivity | by right].
  - apply Hwire in Hk as [-> Hk]. split; [reflexivity | by left].
Qed.

(** The ways a resolution of the [heroes] field can go. *)
Lemma heroes_cases (role : option member) (locale : member)
    (keys : option (list member)) (w : World Request Downstream) :
  (exists e,
     heroes_field role locale keys w = (Raise e, w) /\
     (_convert_role Role role = Raise e \/
      _convert_locale Locale locale = Raise e)) \/
  (exists role' locale' outcome w1,
     _convert_role Role role = Ok role' /\
     _convert_locale Locale locale = Ok locale' /\
     bridge list_controller (role', locale') w = (outcome, w1) /\
     heroes_field role locale keys w =
       (rbind outcome (fun payload =>
        rbind (_parse_models HeroShort_model_validate payload) (fun hero_shorts =>
        rbind (match keys with
               | Some ((_ :: _) as ks) => _convert_keys HeroKey ks
               | _ => Ok []
               end) (fun hero_keys =>
        rmap node_of (_filter_by_keys hero_shorts hero_keys)))),
        w1)).
Proof.
  unfold heroes, bind, lift.
  destruct (_convert_role Role role) as [role'|e] eqn:Hr.
  2:{ left. exists e. split; [reflexivity | by left]. }
  destruct (_convert_locale Locale locale) as [locale'|e] eqn:Hl.
  2:{ left. exists e. split; [reflexivity | by right]. }
  right.
  destruct (bridge list_controller (role', locale') w) as [outcome w1] eqn:Hrun.
  exists role', locale', outcome, w1.
  split; [reflexivity|]. split; [reflexivity|]. split; [exact Hrun|].
  destruct outcome as [payload|e]; [|reflexivity]. simpl.
  destruct (_parse_models HeroShort_model_validate payload) as [hs|e];
    [|reflexivity]. simpl.
  by destruct (match keys with
               | Some ((_ :: _) as ks) => _convert_keys HeroKey ks
               | _ => Ok []
               end).
Qed.

(** X20. Resolving [heroes] awaits the list controller once or not at all
    and never the detail controller, and all it does to the context is
    one TTL merge at most. *)
Theorem heroes_world_effects (role : option member) (locale : member)
    (keys : option (list member)) (w : World Request Downstream) :
  let w' := snd (heroes_field role locale keys w) in
  (awaited w' = awaited w \/ awaited w' = awaited w ++ [ListHeroes]) /\
  exists h, context w' = merge1 (context w) h.
Proof.
  intros w'. subst w'.
  destruct (heroes_cases role locale keys w)
    as [(e & -> & _) | (role' & locale' & outcome & w1 & _ & _ & Hrun & ->)].
  - split; [by left | by exists None].
  - pose proof (run_controller_awaited cache_ttl_header list_controller
                  (role', locale') w) as Hlog.
    pose proof (run_controller_context list_controller (role', locale') w)
      as Hctx.
    rewrite Hrun in Hlog, Hctx. simpl in *. split; [by right | exact Hctx].
Qed.

(** X21. A role or a locale whose value the domain enum does not know: the
    field raises the [ValueError] of the conversion before the list
    controller is awaited, and nothing changes. *)
Theorem heroes_unknown_enum (role : option member) (locale : member)
    (keys : option (list member)) (w : World Request Downstream)
    (Hunknown : (exists r, role = Some r /\ known Role (m_value r) = false) \/
                known Locale (m_value locale) = false) :
  heroes_field role locale keys w = (Raise ValueError, w).
Proof.
  assert (Hconv : forall E x, known E (m_value x) = false ->
            instance_of (m_value x) E = None /\
            enum_call E (m_value x) = Raise ValueError).
  { intros E x K. split; [|by apply enum_call_unknown].
    apply orb_false_elim in K as [Hi _]. by apply instance_of_isinstance. }
  unfold heroes, bind, lift.
  destruct Hunknown as [(r & -> & K) | K].
  - unfold _convert_role. destruct (Hconv Role r K) as [-> ->]. reflexivity.
  - destruct (_convert_role Role role) as [role'|e] eqn:Hr.
    + unfold _convert_locale. destruct (Hconv Locale locale K) as [-> ->].
      reflexivity.
    + destruct role as [r|]; [|discriminate]. unfold _convert_role in Hr.
      destruct (instance_of (m_value r) Role); [discriminate|].
      destruct (enum_call Role (m_value r)) as [m|e'] eqn:C; [discriminate|].
      simpl in Hr. injection Hr as <-.
      by rewrite (enum_call_raises _ _ _ C).
Qed.

(** X23. After a call of the list controller that returned, the TTL of the
    call stays merged whatever happens next: when the model rejects an
    item of the payload the field raises the validation error, and when
    the payload is accepted but one of the keys given has a value that
    [HeroKey] does not know the field raises [ValueError], in both
    cases with the context already updated. *)
Theorem heroes_failure_after_call (role : option member) (locale : member)
    (keys : option (list member)) (w : World Request Downstream)
    (role' : option member) (locale' : member)
    (temp_response : gmap string string) (payload : list Raw) (d : Downstream)
    (Hrole : _convert_role Role role = Ok role')
    (Hlocale : _convert_locale Locale locale = Ok locale')
    (Hcall : list_heroes_process_request (request (context w))
               (role', locale') (downstream w)
             = (temp_response, Ok payload, d)) :
  let w1 := {| context := merge1 (context w) (temp_response !! cache_ttl_header);
               downstream := d;
               awaited := awaited w ++ [ListHeroes] |} in
  snd (heroes_field role locale keys w) = w1 /\
  (forall e, _parse_models HeroShort_model_validate payload = Raise e ->
     heroes_field role locale keys w = (Raise e, w1)) /\
  (forall hero_shorts k ks,
     _parse_models HeroShort_model_validate payload = Ok hero_shorts ->
     keys = Some (k :: ks) ->
     Exists (fun key => known HeroKey (m_value key) = false) (k :: ks) ->
     heroes_field role locale keys w = (Raise ValueError, w1)).
Proof.
  intros w1.
  assert (Hrun : bridge list_controller (role', locale') w = (Ok payload, w1))
    by (by apply run_controller_success).
  destruct (heroes_cases role locale keys w)
    as [(e & _ & [He|He]) | (r2 & l2 & outcome & w2 & Hr2 & Hl2 & Hrun2 & Hh)];
    [congruence | congruence |].
  rewrite Hrole in Hr2. rewrite Hlocale in Hl2.
  injection Hr2 as <-. injection Hl2 as <-.
  rewrite Hrun in Hrun2. injection Hrun2 as <- <-.
  rewrite Hh. simpl. split; [reflexivity|]. split.
  - by intros e ->.
  - intros hs k ks -> -> Hex. simpl.
    by rewrite (convert_keys_unknown HeroKey (k :: ks) Hex).
Qed.

(** X22. When the list controller raises, the field raises the very same
    exception without parsing or filtering anything, and the context is
    as before the call. *)
Theorem heroes_downstream_failure (role : option member) (locale : member)
    (keys : option (list member)) (w : World Request Downstream)
    (role' : option member) (locale' : member)
    (temp_response : gmap string string) (e : exn) (d : Downstream)
    (Hrole : _convert_role Role role = Ok role')
    (Hlocale : _convert_locale Locale locale = Ok locale')
    (Hcall : list_heroes_process_request (request (context w))
               (role', locale') (downstream w)
             = (temp_response, Raise e, d)) :
  heroes_field role locale keys w =
    (Raise e,
     {| context := context w;
        downstream := d;
        awaited := awaited w ++ [ListHeroes] |}).
Proof.
  unfold heroes, bind, lift, _run_controller. rewrite Hrole, Hlocale.
  simpl. by rewrite Hcall.
Qed.

(** X24. The nodes that [heroes] returns all start with an empty details
    cache (no details are fetched with the list), and with keys given
    there are no more nodes than keys. *)
Theorem heroes_nodes (role : option member) (locale : member)
    (keys : option (list member)) (w w' : World Request Downstream)
    (nodes : list (HeroNode.t Hero))
    (Hreturns : heroes_field role locale keys w = (Ok nodes, w')) :
  Forall (fun node => HeroNode._details_cache node = []) nodes /\
  (forall ks, keys = Some ks -> ks <> [] -> length nodes <= length ks)%nat.
Proof.
  destruct (heroes_cases role locale keys w)
    as [(e & He & _) | (role' & locale' & outcome & w1 & _ & _ & _ & Hh)];
    [congruence|].
  rewrite Hh in Hreturns. injection Hreturns as Hr _.
  destruct outcome as [payload|]; [|discriminate]. simpl in Hr.
  destruct (_parse_models HeroShort_model_validate payload) as [hs|];
    [|discriminate]. simpl in Hr.
  destruct (match keys with
            | Some ((_ :: _) as ks) => _convert_keys HeroKey ks
            | _ => Ok []
            end) as [hks|] eqn:Hk; [|discriminate]. simpl in Hr.
  apply rmap_Ok in Hr. split.
  - clear Hk. induction Hr as [|h n l l' Hn _ IH]; constructor; [|exact IH].
    unfold _make_hero_node in Hn.
    destruct (_hero_key_to_enum HeroKey (HeroShort.key h)); [|discriminate].
    destruct (_role_to_enum Role (HeroShort.role h)); [|discriminate].
    simpl in Hn. by injection Hn as <-.
  - intros ks -> Hne. destruct ks as [|k ks]; [done|].
    unfold _convert_keys in Hk. apply rmap_Ok in Hk.
    rewrite <- (Forall2_length _ _ _ Hr), (Forall2_length _ _ _ Hk).
    assert (hks <> []) as Hne' by (inversion Hk; discriminate).
    rewrite filter_by_keys_omap by done. apply omap_length_le.
Qed.

(** X25. With keys given that are declared members of [HeroKey], once the
    list controller has returned and its payload has parsed into Short
    Entities whose key and role are members of the domain enums, the
    field returns the filtered Short Entities wrapped as nodes, in the
    order of the keys. *)
Theorem heroes_with_declared_keys
    (role : option member) (locale : member) (keys : list member)
    (w w' : World Request Downstream)
    (role' : option member) (locale' : member)
    (payload : list Raw) (hs : list HeroShort.t)
    (Hwf : enum_wf HeroKey = true)
    (Hkeys : keys <> [])
    (Hdeclared : Forall (fun k => k ∈ members HeroKey) keys)
    (Hrole : _convert_role Role role = Ok role')
    (Hlocale : _convert_locale Locale locale = Ok locale')
    (Hcall : bridge list_controller (role', locale') w = (Ok payload, w'))
    (Hparse : _parse_models HeroShort_model_validate payload = Ok hs)
    (Htyped : Forall (fun h =>
                 isinstance (VEnum (HeroShort.key h)) HeroKey = true /\
                 isinstance (VEnum (HeroShort.role h)) Role = true) hs) :
  heroes_field role locale (Some keys) w
  = (Ok (map wrap_node (_filter_by_keys hs keys)), w').
Proof.
  assert (Hconv : _convert_keys HeroKey keys = Ok keys).
  { unfold _convert_keys. apply rmap_Ok.
    induction Hdeclared as [|k ks Hk _ IH]; constructor.
    - by apply enum_to_hero_key_member.
    - destruct ks as [|k' ks']; [constructor | by apply IH]. }
  rewrite (heroes_with_keys cache_ttl_header Role Locale HeroKey
             HeroShort_model_validate list_heroes_process_request
             role locale keys keys w w' role' locale' payload hs
             Hkeys Hrole Hlocale Hcall Hparse Hconv).
  f_equal. apply rmap_make_hero_node_typed.
  apply Forall_forall. intros h Hh.
  rewrite Forall_forall in Htyped. apply Htyped.
  destruct keys as [|k ks]; [done|].
  destruct (proj1 (filter_by_keys_elem hs (k :: ks) h Hkeys) Hh)
    as (key & _ & Hget).
  pose proof (by_key_get_cases hs key) as Hc. rewrite Hget in Hc.
  by destruct Hc.
Qed.

(** X26. Every resolver leaves the request handle alone, keeps the response
    header in step with the stored TTL, and never increases a stored TTL:
    so for the list field, the details loader and the [details]
    field. *)
Theorem resolvers_keep_context
    (role : option member) (locale : member) (keys : option (list member))
    (self : HeroNode.t Hero) (w : World Request Downstream) :
  let ok (w' : World Request Downstream) :=
    request (context w') = request (context w) /\
    (header_in_step cache_ttl_header (context w) ->
     header_in_step cache_ttl_header (context w')) /\
    (forall c, cache_ttl (context w) = Some c ->
       exists c', cache_ttl (context w') = Some c' /\ c' <= c) in
  ok (snd (heroes_field role locale keys w)) /\
  ok (snd (snd (loader locale (self, w)))) /\
  ok (snd (snd (details_field locale (self, w)))).
Proof.
  intros ok.
  assert (Hmerge : forall w', (exists h, context w' = merge1 (context w) h) ->
                              ok w').
  { intros w' [h Hw']. unfold ok. rewrite Hw'. split; [|split].
    - destruct (h ≫= Py.int) as [v|] eqn:Hh.
      + rewrite (merge_parsed _ _ _ v Hh).
        by destruct (match cache_ttl (context w) with
                     | None => true | Some c => v <? c end).
      + by rewrite (merge_unparsed _ _ _ Hh).
    - apply merge_in_step.
    - intros c Hc. destruct (h ≫= Py.int) as [v|] eqn:Hh.
      + rewrite (merge_parsed _ _ _ v Hh), Hc.
        destruct (Z.ltb_spec v c); simpl.
        * exists v. split; [reflexivity | lia].
        * exists c. split; [exact Hc | lia].
      + rewrite (merge_unparsed _ _ _ Hh). exists c. split; [exact Hc | lia]. }
  split; [|split].
  - apply Hmerge.
    destruct (heroes_cases role locale keys w)
      as [(e & -> & _) | (role' & locale' & outcome & w1 & _ & _ & Hrun & ->)];
      [by exists None|].
    pose proof (run_controller_context list_controller (role', locale') w)
      as Hctx. by rewrite Hrun in Hctx.
  - apply Hmerge.
    destruct (load_details_cases locale self w)
      as [(cached & _ & ->) | [(_ & e & -> & _) |
          (_ & hk & loc & outcome & w1 & _ & _ & Hrun & Hout)]];
      [by exists None | by exists None |].
    pose proof (run_controller_context detail_controller (hk, loc) w) as Hctx.
    rewrite Hrun in Hctx. simpl in Hctx.
    destruct outcome as [payload|e]; [|by rewrite Hout].
    destruct (Hero_model_validate payload); by rewrite Hout.
  - rewrite details_load. cbn [snd]. apply Hmerge.
    destruct (load_details_cases locale self w)
      as [(cached & _ & ->) | [(_ & e & -> & _) |
          (_ & hk & loc & outcome & w1 & _ & _ & Hrun & Hout)]];
      [by exists None | by exists None |].
    pose proof (run_controller_context detail_controller (hk, loc) w) as Hctx.
    rewrite Hrun in Hctx. simpl in Hctx.
    destruct outcome as [payload|e]; [|by rewrite Hout].
    destruct (Hero_model_validate payload); by rewrite Hout.
Qed.

End MoreSchemaProps.

(** ** Instances of the further properties *)

Lemma merge_order_irrelevant_witness :
  merge_all Sample.cache_ttl_header Faulty.stored_context
    [Some "7200"; None; Some "60"; Some "x"]
  = merge_all Sample.cache_ttl_header Faulty.stored_context
      [Some "60"; Some "x"; Some "7200"; None].
Proof.
  apply merge_order_irrelevant.
  apply (Permutation_app_comm [Some "7200"; None] [Some "60"; Some "x"]).
Defined.

Lemma merge_touches_one_header_witness :
  response (merge_all Sample.cache_ttl_header Faulty.stored_context
              [Some "60"; Some "30"]) !! "content-type"
  = Some "application/json".
Proof.
  assert (H : "content-type" <> Sample.cache_ttl_header) by discriminate.
  destruct (merge_touches_one_header Sample.cache_ttl_header
              Faulty.stored_context [Some "60"; Some "30"] "content-type" H)
    as [_ Hr].
  rewrite Hr. reflexivity.
Defined.

Lemma merge_keeps_header_in_step_witness :
  header_in_step Sample.cache_ttl_header Faulty.stored_context /\
  header_in_step Sample.cache_ttl_header
    (merge_all Sample.cache_ttl_header Faulty.stored_context
       [Some "60"; None; Some "7200"]).
Proof.
  assert (H : header_in_step Sample.cache_ttl_header Faulty.stored_context)
    by reflexivity.
  split; [exact H|].
  by apply merge_keeps_header_in_step.
Defined.

Lemma conversions_land_in_target_witness :
  isinstance (VEnum Sample.ANA) Sample.HeroKey = true.
Proof.
  assert (HR : members_tagged Sample.Role) by (repeat constructor).
  assert (HL : members_tagged Sample.Locale) by (repeat constructor).
  assert (HK : members_tagged Sample.HeroKey) by (repeat constructor).
  destruct (conversions_land_in_target Sample.Role Sample.Locale
              Sample.HeroKey HR HL HK) as (_ & _ & H & _).
  apply (H Sample.WRAPPED_ANA). reflexivity.
Defined.

Lemma to_domain_by_value_witness :
  _enum_to_hero_key Sample.HeroKey (Member "HeroKeyWire" false "ANA" (VStr "ana"))
  = _enum_to_hero_key Sample.HeroKey Sample.ANA.
Proof.
  assert (Hv : py_eq (m_value (Member "HeroKeyWire" false "ANA" (VStr "ana")))
                     (m_value Sample.ANA) = true) by reflexivity.
  destruct (to_domain_by_value Sample.Role Sample.Locale Sample.HeroKey _ _ Hv)
    as (_ & _ & H).
  apply H; reflexivity.
Defined.

Lemma filter_by_keys_sound_witness :
  (length (_filter_by_keys [Sample.ana; Sample.sojourn]
             [Sample.ANA; Sample.LUCIO; Sample.ANA]) <= 3)%nat.
Proof.
  destruct (filter_by_keys_sound [Sample.ana; Sample.sojourn]
              [Sample.ANA; Sample.LUCIO; Sample.ANA]) as [_ H].
  destruct H as [Hlen _]; [discriminate|]. exact Hlen.
Defined.

Lemma filter_by_keys_nothing_found_witness :
  _filter_by_keys [Sample.ana; Sample.sojourn] [Sample.LUCIO; Sample.STRANGER] = [].
Proof.
  assert (Hkeys : [Sample.LUCIO; Sample.STRANGER] <> []) by discriminate.
  assert (Hmissing : Forall (fun key => Forall (fun h => has_key key h = false)
                                          [Sample.ana; Sample.sojourn])
                       [Sample.LUCIO; Sample.STRANGER])
    by (repeat constructor).
  exact (proj1 (filter_by_keys_nothing_found _ _ Hkeys Hmissing)).
Defined.

Lemma filter_by_keys_app_witness :
  _filter_by_keys [Sample.ana; Sample.lucio; Sample.sojourn]
    ([Sample.SOJOURN] ++ [Sample.ANA; Sample.SOJOURN])
  = _filter_by_keys [Sample.ana; Sample.lucio; Sample.sojourn] [Sample.SOJOURN]
    ++ _filter_by_keys [Sample.ana; Sample.lucio; Sample.sojourn]
         [Sample.ANA; Sample.SOJOURN].
Proof.
  apply filter_by_keys_app; discriminate.
Defined.

Lemma sample_distinct_keys :
  distinct_keys [Sample.ana; Sample.lucio; Sample.sojourn].
Proof.
  intros h h' Hh Hh' Hk.
  repeat (apply elem_of_cons in Hh as [->|Hh]);
    repeat (apply elem_of_cons in Hh' as [->|Hh']);
    try reflexivity; try discriminate;
    try (by inversion Hh); by inversion Hh'.
Defined.

Lemma filter_by_own_keys_witness :
  _filter_by_keys [Sample.ana; Sample.lucio; Sample.sojourn]
    (map HeroShort.key [Sample.sojourn; Sample.ana])
  = [Sample.sojourn; Sample.ana].
Proof.
  assert (Hwanted : Forall (fun h => h ∈ [Sample.ana; Sample.lucio; Sample.sojourn])
                      [Sample.sojourn; Sample.ana]).
  { repeat constructor. }
  destruct (filter_by_own_keys _ _ sample_distinct_keys Hwanted) as [H _].
  apply H. discriminate.
Defined.

Lemma load_details_node_effects_witness :
  dict_get
    (HeroNode._details_cache
       (fst (snd (_load_details Sample.cache_ttl_header Sample.Locale
                    Sample.HeroKey Sample.Hero_model_validate
                    Sample.get_hero_process_request Sample.ENGLISH_US
                    (Sample.ana_node, Sample.world0)))))
    (VStr "de-de")
  = None.
Proof.
  destruct (load_details_node_effects Sample.cache_ttl_header Sample.Locale
              Sample.HeroKey Sample.Hero_model_validate
              Sample.get_hero_process_request Sample.ENGLISH_US
              Sample.ana_node Sample.world0) as (_ & Hother & _).
  rewrite (Hother (VStr "de-de")); reflexivity.
Defined.

Lemma load_details_unknown_enum_witness :
  _load_details Sample.cache_ttl_header Sample.Locale Sample.HeroKey
    Sample.Hero_model_validate Sample.get_hero_process_request
    Sample.ENGLISH_US (Faulty.stranger_node, Sample.world0)
  = (Raise ValueError, (Faulty.stranger_node, Sample.world0)).
Proof.
  apply load_details_unknown_enum; [reflexivity|]. left. reflexivity.
Defined.

Lemma load_details_rejected_payload_witness :
  _load_details Sample.cache_ttl_header Sample.Locale Sample.HeroKey
    Sample.Hero_model_validate Faulty.empty_payload_process_request
    Sample.ENGLISH_US (Sample.ana_node, Sample.world0)
  = (Raise ValidationError,
     (Sample.ana_node,
      {| context := merge_cache_ttl Sample.cache_ttl_header Sample.fresh_context
                      (({[ Sample.cache_ttl_header := "120" ]} : gmap string string)
                         !! Sample.cache_ttl_header);
         downstream := 1%nat;
         awaited := [GetHero] |})).
Proof.
  apply (load_details_rejected_payload Sample.cache_ttl_header Sample.Locale
           Sample.HeroKey Sample.Hero_model_validate
           Faulty.empty_payload_process_request Sample.ENGLISH_US
           Sample.ana_node Sample.world0 Sample.ANA Sample.ENGLISH_US
           {[ Sample.cache_ttl_header := "120" ]} "" 1%nat ValidationError);
    reflexivity.
Defined.

Lemma details_resolved_once_witness :
  let resolve :=
    details Sample.cache_ttl_header Sample.Locale Sample.HeroKey
      Sample.Hero_model_validate Sample.get_hero_process_request
      String.length Sample.ENGLISH_US in
  let first := resolve (Sample.ana_node, Sample.world0) in
  fst first = Ok 3%nat /\
  resolve (snd first) = (Ok 3%nat, snd first) /\
  awaited (snd (snd first)) = [GetHero].
Proof.
  intros resolve first.
  assert (Hmiss : dict_get (HeroNode._details_cache Sample.ana_node)
                    (m_value Sample.ENGLISH_US) = None) by reflexivity.
  assert (Hfirst : resolve (Sample.ana_node, Sample.world0)
                   = (Ok 3%nat, (fst (snd first), snd (snd first))))
    by (vm_compute; reflexivity).
  destruct (details_resolved_once Sample.cache_ttl_header Sample.Locale
              Sample.HeroKey Sample.Hero_model_validate
              Sample.get_hero_process_request String.length
              Sample.ENGLISH_US Sample.ana_node (fst (snd first))
              Sample.world0 (snd (snd first)) 3%nat Hmiss Hfirst)
    as [Hsecond Hlog].
  split; [vm_compute; reflexivity|].
  replace (snd first) with (fst (snd first), snd (snd first))
    by (by destruct (snd first)).
  split; [exact Hsecond | exact Hlog].
Defined.

Lemma heroes_unknown_enum_witness :
  heroes (Hero:=string) Sample.cache_ttl_header Sample.Role Sample.Locale
    Sample.HeroKey Sample.HeroShort_model_validate
    Sample.list_heroes_process_request
    (Some Sample.STRANGER) Sample.ENGLISH_US None Sample.world0
  = (Raise ValueError, Sample.world0).
Proof.
  apply heroes_unknown_enum. left. exists Sample.STRANGER.
  split; reflexivity.
Defined.

Lemma heroes_failure_after_call_witness :
  heroes (Hero:=string) Sample.cache_ttl_header Sample.Role Sample.Locale
    Sample.HeroKey Sample.HeroShort_model_validate
    Faulty.invalid_item_process_request
    None Sample.ENGLISH_US None Sample.world0
  = (Raise ValidationError,
     {| context := merge_cache_ttl Sample.cache_ttl_header Sample.fresh_context
                     (({[ Sample.cache_ttl_header := "600" ]} : gmap string string)
                        !! Sample.cache_ttl_header);
        downstream := 1%nat;
        awaited := [ListHeroes] |}).
Proof.
  destruct (heroes_failure_after_call (Hero:=string) Sample.cache_ttl_header
              Sample.Role Sample.Locale Sample.HeroKey
              Sample.HeroShort_model_validate Faulty.invalid_item_process_request
              None Sample.ENGLISH_US None Sample.world0
              None Sample.ENGLISH_US {[ Sample.cache_ttl_header := "600" ]}
              ["ana"; "bogus"; "sojourn"] 1%nat eq_refl eq_refl eq_refl)
    as (_ & Hreject & _).
  apply Hreject. reflexivity.
Defined.

Lemma heroes_downstream_failure_witness :
  heroes (Hero:=string) Sample.cache_ttl_header Sample.Role Sample.Locale
    Sample.HeroKey Sample.HeroShort_model_validate
    Faulty.list_failing_process_request
    None Sample.ENGLISH_US (Some [Sample.ANA]) Sample.world0
  = (Raise (OtherError "BlizzardError"),
     {| context := Sample.fresh_context;
        downstream := 1%nat;
        awaited := [ListHeroes] |}).
Proof.
  apply (heroes_downstream_failure (Hero:=string) Sample.cache_ttl_header
           Sample.Role Sample.Locale Sample.HeroKey
           Sample.HeroShort_model_validate Faulty.list_failing_process_request
           None Sample.ENGLISH_US (Some [Sample.ANA]) Sample.world0
           None Sample.ENGLISH_US {[ Sample.cache_ttl_header := "5" ]});
    reflexivity.
Defined.

Lemma heroes_nodes_witness :
  let out :=
    heroes (Hero:=string) Sample.cache_ttl_header Sample.Role Sample.Locale
      Sample.HeroKey Sample.HeroShort_model_validate
      Sample.list_heroes_process_request
      None Sample.ENGLISH_US (Some [Sample.ANA; Sample.LUCIO]) Sample.world0 in
  fst out = Ok [Sample.ana_node] /\
  Forall (fun node => HeroNode._details_cache node = []) [Sample.ana_node].
Proof.
  intros out.
  assert (Hout : out = (Ok [Sample.ana_node], snd out))
    by (vm_compute; reflexivity).
  split; [by rewrite Hout|].
  exact (proj1 (heroes_nodes (Hero:=string) Sample.cache_ttl_header Sample.Role
                  Sample.Locale Sample.HeroKey Sample.HeroShort_model_validate
                  Sample.list_heroes_process_request
                  None Sample.ENGLISH_US (Some [Sample.ANA; Sample.LUCIO])
                  Sample.world0 (snd out) [Sample.ana_node] Hout)).
Defined.

Lemma heroes_with_declared_keys_witness :
  heroes (Hero:=string) Sample.cache_ttl_header Sample.Role Sample.Locale
    Sample.HeroKey Sample.HeroShort_model_validate
    Sample.list_heroes_process_request
    None Sample.ENGLISH_US (Some [Sample.SOJOURN; Sample.LUCIO; Sample.SOJOURN])
    Sample.world0
  = (Ok (map wrap_node
           (_filter_by_keys [Sample.ana; Sample.sojourn]
              [Sample.SOJOURN; Sample.LUCIO; Sample.SOJOURN])),
     snd (_run_controller Sample.cache_ttl_header
            (ListHeroesController Sample.list_heroes_process_request)
            (None, Sample.ENGLISH_US) Sample.world0)).
Proof.
  apply (heroes_with_declared_keys (Hero:=string) Sample.cache_ttl_header
           Sample.Role Sample.Locale Sample.HeroKey
           Sample.HeroShort_model_validate Sample.list_heroes_process_request
           None Sample.ENGLISH_US [Sample.SOJOURN; Sample.LUCIO; Sample.SOJOURN]
           Sample.world0 _ None Sample.ENGLISH_US ["ana"; "sojourn"]
           [Sample.ana; Sample.sojourn]);
    try reflexivity; try discriminate; repeat constructor.
Defined.

Lemma resolvers_keep_context_witness :
  header_in_step Sample.cache_ttl_header
    (context (snd (snd (_load_details Sample.cache_ttl_header Sample.Locale
                          Sample.HeroKey Sample.Hero_model_validate
                          Sample.get_hero_process_request Sample.ENGLISH_US
                          (Sample.ana_node, Sample.world0))))).
Proof.
  destruct (resolvers_keep_context (HeroDetailsType:=nat)
              Sample.cache_ttl_header Sample.Role Sample.Locale Sample.HeroKey
              Sample.Hero_model_validate Sample.HeroShort_model_validate
              Sample.list_heroes_process_request Sample.get_hero_process_request
              String.length None Sample.ENGLISH_US None Sample.ana_node
              Sample.world0) as (_ & (_ & Hstep & _) & _).
  apply Hstep. reflexivity.
Defined.
